(** * ror_wikidata_claim_overlap: a shallow embedding and its properties

    The script loads a claim specification (a JSON object mapping Wikidata
    property identifiers to claim names), builds one SPARQL query, fetches
    twenty pages of results through a worker pool, normalises every page into
    a mapping keyed by ROR identifier, merges the pages and writes one CSV
    file per claim.

    Python dictionaries are insertion ordered; they are embedded as
    association lists whose update keeps the position of an existing key.
    Exceptions are values of [exn]; effectful code lives in a state and
    exception monad over [world], which records the HTTP requests issued, the
    files written and the log lines.  The outside world (the claims file and
    the SPARQL endpoint) is an [env] of answers. *)

From Stdlib Require Import String Ascii List ZArith Lia Bool DecimalString.
From Stdlib Require DecimalZ DecimalPos.
Import ListNotations.
Open Scope string_scope.

Set Implicit Arguments.

(** ** Strings *)

Module Str.

(** The line feed written [\n] in the Python literals. *)
Definition nl : string := String (ascii_of_nat 10) EmptyString.

(** [str(n)] for a Python [int]. *)
Definition of_Z (n : Z) : string := NilZero.string_of_int (Z.to_int n).

(** [s.split(sep)] for a one-character separator. *)
Fixpoint split (sep : ascii) (s : string) : list string :=
  match s with
  | EmptyString => [EmptyString]
  | String c s' =>
      if Ascii.eqb c sep then EmptyString :: split sep s'
      else match split sep s' with
           | h :: t => String c h :: t
           | [] => [String c EmptyString]
           end
  end.

(** [c in s] *)
Fixpoint contains (c : ascii) (s : string) : bool :=
  match s with
  | EmptyString => false
  | String c' s' => Ascii.eqb c' c || contains c s'
  end.

(** [s.count(c)] for a one-character [c]. *)
Fixpoint count (c : ascii) (s : string) : nat :=
  match s with
  | EmptyString => 0
  | String c' s' => (if Ascii.eqb c' c then 1 else 0) + count c s'
  end.

(** [s.startswith(c)] and [s.endswith(c)] for a one-character [c]. *)
Definition startswith (c : ascii) (s : string) : bool :=
  match s with
  | String c' _ => Ascii.eqb c' c
  | EmptyString => false
  end.

Fixpoint endswith (c : ascii) (s : string) : bool :=
  match s with
  | EmptyString => false
  | String c' EmptyString => Ascii.eqb c' c
  | String _ s' => endswith c s'
  end.

(** Truth value of a [str]: the empty string is false. *)
Definition truthy (s : string) : bool :=
  match s with
  | EmptyString => false
  | String _ _ => true
  end.

(** [''.join(l)] *)
Definition join (l : list string) : string := fold_right append EmptyString l.

End Str.

(** ** Insertion-ordered dictionaries with string keys *)

Module Dict.

Definition t (V : Type) : Type := list (string * V).

Section Ops.
Variable V : Type.

Definition empty : t V := [].

(** [d.get(k)] , [None] when the key is absent. *)
Fixpoint get (k : string) (d : t V) : option V :=
  match d with
  | [] => None
  | (k', v) :: d' => if String.eqb k k' then Some v else get k d'
  end.

(** [d[k] = v]: an existing key keeps its position, a new key goes last. *)
Fixpoint set (k : string) (v : V) (d : t V) : t V :=
  match d with
  | [] => [(k, v)]
  | (k', v') :: d' =>
      if String.eqb k k' then (k', v) :: d' else (k', v') :: set k v d'
  end.

(** [d.update(other)] *)
Definition update (d other : t V) : t V :=
  fold_left (fun acc kv => set (fst kv) (snd kv) acc) other d.

Definition keys (d : t V) : list string := map fst d.
Definition values (d : t V) : list V := map snd d.
Definition items (d : t V) : list (string * V) := d.

(** Every Python dictionary has pairwise distinct keys. *)
Definition wf (d : t V) : Prop := NoDup (keys d).

Fixpoint mem (k : string) (l : list string) : bool :=
  match l with
  | [] => false
  | k' :: l' => String.eqb k k' || mem k l'
  end.

Fixpoint wfb (d : t V) : bool :=
  match d with
  | [] => true
  | (k, _) :: d' => negb (mem k (keys d')) && wfb d'
  end.

End Ops.

Arguments empty {V}.

End Dict.

(** The claim specification: property identifier to claim name, the flat
    JSON object of strings of the input file. *)
Definition claim_spec : Type := Dict.t string.

(** ** Query construction *)

(** The body of the [for] loop of [generate_sparql_query]: one step on the
    pair (select_clause, where_clause). *)
Definition query_step (acc : string * string) (claim : string * string)
  : string * string :=
  let '(select_clause, where_clause) := acc in
  let '(claim_id, claim_name) := claim in
  (select_clause ++ " ?" ++ claim_name,
   where_clause ++ Str.nl ++ "  OPTIONAL { ?item wdt:" ++ claim_id
                ++ " ?" ++ claim_name ++ " }").

Definition select_init : string := "SELECT ?item ?rorID".
Definition where_init : string :=
  "WHERE {" ++ Str.nl ++ "  ?item wdt:P6782 ?rorID .".

Definition query_clauses (claims : claim_spec) : string * string :=
  let '(select_clause, where_clause) :=
    fold_left query_step (Dict.items claims) (select_init, where_init) in
  (select_clause, where_clause ++ Str.nl ++ "}").

Definition generate_sparql_query (claims : claim_spec) : string :=
  let '(select_clause, where_clause) := query_clauses claims in
  select_clause ++ Str.nl ++ where_clause.

(** The text each claim contributes. *)
Definition select_var (claim : string * string) : string :=
  " ?" ++ snd claim.

Definition optional_clause (claim : string * string) : string :=
  Str.nl ++ "  OPTIONAL { ?item wdt:" ++ fst claim ++ " ?" ++ snd claim ++ " }".

(** ** Exceptions *)

Inductive exn : Type :=
| KeyError (key : string)
| IndexError (msg : string)
| ValueError (msg : string)
| UnicodeDecodeError (msg : string)
| JSONDecodeError (msg : string)
| OSError (msg : string)
| RequestException (msg : string).

(** The classes named in the [except] clauses of the script. *)
Inductive exn_class : Type :=
| cJSONDecodeError
| cIOError
| cRequestException
| cException.

(** [isinstance(e, cls)].  [json.JSONDecodeError] and [UnicodeDecodeError]
    derive from [ValueError]; [IOError] is [OSError];
    [requests.RequestException] derives from [IOError]. *)
Definition isinstance (e : exn) (cls : exn_class) : bool :=
  match cls, e with
  | cException, _ => true
  | cJSONDecodeError, JSONDecodeError _ => true
  | cIOError, OSError _ => true
  | cIOError, RequestException _ => true
  | cRequestException, RequestException _ => true
  | _, _ => false
  end.

Inductive result (A : Type) : Type :=
| Ok (a : A)
| Raise (e : exn).

Arguments Ok {A} a.
Arguments Raise {A} e.

Definition rbind {A B : Type} (m : result A) (k : A -> result B) : result B :=
  match m with
  | Ok a => k a
  | Raise e => Raise e
  end.

Notation "'let?' x ':=' m 'in' k" := (rbind m (fun x => k))
  (at level 10, x name, m at level 100, k at level 200).

(** A [for] loop whose body may raise. *)
Fixpoint fold_result {A B : Type} (f : A -> B -> result A) (l : list B) (a : A)
  : result A :=
  match l with
  | [] => Ok a
  | x :: l' => let? a' := f a x in fold_result f l' a'
  end.

(** [d[k]] *)
Definition getitem {V : Type} (d : Dict.t V) (k : string) : result V :=
  match Dict.get k d with
  | Some v => Ok v
  | None => Raise (KeyError k)
  end.

(** [l[-1]] *)
Fixpoint getitem_last (l : list string) : result string :=
  match l with
  | [] => Raise (IndexError "list index out of range")
  | [x] => Ok x
  | _ :: l' => getitem_last l'
  end.

(** [range(start, stop, step)], as the list of its elements. *)
Definition range_len (start stop step : Z) : nat :=
  if (0 <? step)%Z then
    if (start <? stop)%Z then Z.to_nat ((stop - start - 1) / step + 1) else 0
  else
    if (stop <? start)%Z then Z.to_nat ((start - stop - 1) / (- step) + 1) else 0.

Definition py_range (start stop step : Z) : result (list Z) :=
  if (step =? 0)%Z then Raise (ValueError "range() arg 3 must not be zero")
  else Ok (map (fun k => (start + Z.of_nat k * step)%Z)
               (seq 0 (range_len start stop step))).

(** ** Data model *)

(** One result row of the endpoint, in the SPARQL JSON results format:
    variable name to an object of string fields (["type"], ["value"],
    ...), any of which may be missing. *)
Definition binding : Type := Dict.t (Dict.t string).

(** A Python value that is [None] or a [str]. *)
Definition opt_str : Type := option string.

(** [bool(v)] for such a value. *)
Definition truthy (v : opt_str) : bool :=
  match v with
  | Some s => Str.truthy s
  | None => false
  end.

(** A normalised record: ["wikidata_id"] and one entry per claim name. *)
Definition record : Type := Dict.t opt_str.

(** ROR identifier to record. *)
Definition page_data : Type := Dict.t record.

Definition row : Type := list opt_str.

(** ** The normaliser *)

(** [result.get(claim_name, {}).get("value")] *)
Definition claim_value (res : binding) (claim_name : string) : opt_str :=
  Dict.get "value"
    (match Dict.get claim_name res with
     | Some entry => entry
     | None => Dict.empty
     end).

(** [{claim_name: ... for claim_name in claims.values()}] *)
Definition claim_values (res : binding) (claims : claim_spec) : record :=
  fold_left (fun acc claim_name =>
               Dict.set claim_name (claim_value res claim_name) acc)
            (Dict.values claims) Dict.empty.

(** [{"wikidata_id": wikidata_id, **{...}}] *)
Definition make_record (wikidata_id : string) (res : binding)
  (claims : claim_spec) : record :=
  Dict.update [("wikidata_id", Some wikidata_id)] (claim_values res claims).

(** [result["rorID"]["value"]] *)
Definition ror_id_of (res : binding) : result string :=
  let? entry := getitem res "rorID" in
  getitem entry "value".

(** [result["item"]["value"].split("/")[-1]] *)
Definition wikidata_id_of (res : binding) : result string :=
  let? entry := getitem res "item" in
  let? uri := getitem entry "value" in
  getitem_last (Str.split "/" uri).

(** The body of the loop of [process_wikidata_results]. *)
Definition process_step (claims : claim_spec) (processed_data : page_data)
  (res : binding) : result page_data :=
  let? ror_id := ror_id_of res in
  let? wikidata_id := wikidata_id_of res in
  Ok (Dict.set ror_id (make_record wikidata_id res claims) processed_data).

Definition process_wikidata_results (results : list binding)
  (claims : claim_spec) : result page_data :=
  fold_result (process_step claims) results Dict.empty.

(** ** The world, the environment and the monad of effects *)

Inductive level : Type := INFO | ERROR.

(** A log line: the text of the f-string up to the exception it formats. *)
Record log_record : Type := LogRecord {
  log_level : level;
  log_text : string;
  log_exn : option exn
}.

(** A [requests.get] call. *)
Record request : Type := Request {
  req_url : string;
  req_params : Dict.t string;
  req_headers : Dict.t string
}.

Inductive pool_state : Type := NoPool | PoolRunning | PoolJoined.

(** What a run has done so far, each list in chronological order.  A file is
    its path and the rows written to it. *)
Record world : Type := World {
  requests : list request;
  dirs : list string;
  files : list (string * list row);
  log : list log_record;
  pool : pool_state
}.

Definition initial_world : world := World [] [] [] [] NoPool.

(** The answers of the outside world: [json.load] on the opened claims file,
    and the bindings of the response to a [requests.get] (the whole [try]
    block of [execute_sparql_query]).  Creating the directory and opening the
    output files are taken to succeed. *)
Record env : Type := Env {
  load_json : string -> result claim_spec;
  http_get : request -> result (list binding)
}.

Definition M (A : Type) : Type := world -> result A * world.

Definition ret {A : Type} (a : A) : M A := fun w => (Ok a, w).

Definition raise {A : Type} (e : exn) : M A := fun w => (Raise e, w).

Definition bind {A B : Type} (m : M A) (k : A -> M B) : M B :=
  fun w =>
    match m w with
    | (Ok a, w') => k a w'
    | (Raise e, w') => (Raise e, w')
    end.

Notation "x <- m ;; k" := (bind m (fun x => k))
  (at level 61, m at next level, right associativity).
Notation "m ;; k" := (bind m (fun _ => k))
  (at level 61, right associativity).

Definition lift {A : Type} (r : result A) : M A := fun w => (r, w).

(** [try: m  except cls1: h1  except cls2: h2 ...]: the first clause whose
    class the exception is an instance of handles it. *)
Fixpoint dispatch {A : Type} (clauses : list (exn_class * (exn -> M A)))
  (e : exn) : M A :=
  match clauses with
  | [] => raise e
  | (cls, h) :: rest => if isinstance e cls then h e else dispatch rest e
  end.

Definition try_except {A : Type} (m : M A)
  (clauses : list (exn_class * (exn -> M A))) : M A :=
  fun w =>
    match m w with
    | (Ok a, w') => (Ok a, w')
    | (Raise e, w') => dispatch clauses e w'
    end.

(** [try: m  finally: f] *)
Definition try_finally {A : Type} (m : M A) (f : M unit) : M A :=
  fun w =>
    match m w with
    | (r, w') =>
        match f w' with
        | (Ok _, w'') => (r, w'')
        | (Raise e, w'') => (Raise e, w'')
        end
    end.

(** [for x in l: body] *)
Fixpoint for_each {A : Type} (l : list A) (body : A -> M unit) : M unit :=
  match l with
  | [] => ret tt
  | x :: l' => body x ;; for_each l' body
  end.

(** [[f(x) for x in l]], in order. *)
Fixpoint map_M {A B : Type} (f : A -> M B) (l : list A) : M (list B) :=
  match l with
  | [] => ret []
  | x :: l' => y <- f x ;; ys <- map_M f l' ;; ret (y :: ys)
  end.

Definition logger_error (text : string) (e : exn) : M unit :=
  fun w => (Ok tt, World (requests w) (dirs w) (files w)
                         (log w ++ [LogRecord ERROR text (Some e)]) (pool w)).

Definition logger_info (text : string) : M unit :=
  fun w => (Ok tt, World (requests w) (dirs w) (files w)
                         (log w ++ [LogRecord INFO text None]) (pool w)).

Definition record_request (r : request) : M unit :=
  fun w => (Ok tt, World (requests w ++ [r]) (dirs w) (files w) (log w)
                         (pool w)).

(** [os.makedirs(d, exist_ok=True)] *)
Definition makedirs (d : string) : M unit :=
  fun w => (Ok tt, World (requests w) (dirs w ++ [d]) (files w) (log w)
                         (pool w)).

(** [open(path, "w")]: a new, empty file. *)
Definition open_w (path : string) : M unit :=
  fun w => (Ok tt, World (requests w) (dirs w) (files w ++ [(path, [])])
                         (log w) (pool w)).

Fixpoint append_row (r : row) (fs : list (string * list row))
  : list (string * list row) :=
  match fs with
  | [] => []
  | [(p, rows)] => [(p, (rows ++ [r])%list)]
  | f :: fs' => f :: append_row r fs'
  end.

(** [writer.writerow(r)] on the file opened last. *)
Definition writerow (r : row) : M unit :=
  fun w => (Ok tt, World (requests w) (dirs w) (append_row r (files w))
                         (log w) (pool w)).

Definition set_pool (p : pool_state) : M unit :=
  fun w => (Ok tt, World (requests w) (dirs w) (files w) (log w) p).

Definition get_pool : M pool_state := fun w => (Ok (pool w), w).

(** ** The program *)

(** The parsed command line. *)
Record args : Type := Args {
  input_file : string;
  output_directory : string;
  endpoint : string;
  limit : Z;
  offset : Z;
  email : option string
}.

Section Program.

Variable E : env.

(** [parse_json_claims]: the two [except] clauses log and re-raise. *)
Definition parse_json_claims (file_path : string) : M claim_spec :=
  try_except (lift (load_json E file_path))
    [ (cJSONDecodeError,
       fun e => logger_error "Error parsing JSON file: " e ;; raise e);
      (cIOError,
       fun e => logger_error "Error reading file: " e ;; raise e) ].

(** [f"{query} LIMIT {limit} OFFSET {offset}"] *)
Definition full_query (query : string) (lim off : Z) : string :=
  query ++ " LIMIT " ++ Str.of_Z lim ++ " OFFSET " ++ Str.of_Z off.

(** The headers: ["From"] is added when [email] is truthy. *)
Definition request_headers (mail : option string) : Dict.t string :=
  let headers := [("User-Agent", "ror_wikidata_claim_overlap")] in
  match mail with
  | Some m => if Str.truthy m then Dict.set "From" m headers else headers
  | None => headers
  end.

Definition make_request (endpoint_url query : string) (lim off : Z)
  (mail : option string) : request :=
  Request endpoint_url
          [("query", full_query query lim off); ("format", "json")]
          (request_headers mail).

Definition execute_sparql_query (endpoint_url query : string) (lim off : Z)
  (mail : option string) : M (list binding) :=
  let req := make_request endpoint_url query lim off mail in
  try_except (record_request req ;; lift (http_get E req))
    [ (cRequestException,
       fun e => logger_error "Error executing SPARQL query: " e ;; raise e) ].

Definition worker (endpoint_url query : string) (claims : claim_spec)
  (lim off : Z) (mail : option string) : M page_data :=
  try_except
    (results <- execute_sparql_query endpoint_url query lim off mail ;;
     lift (process_wikidata_results results claims))
    [ (cException,
       fun e =>
         logger_error ("Error in worker (offset " ++ Str.of_Z off ++ "): ") e ;;
         ret Dict.empty) ].

(** [os.path.join(a, b)] on POSIX. *)
Definition path_join (a b : string) : string :=
  if Str.startswith "/" b then b
  else if (negb (Str.truthy a) || Str.endswith "/" a)%bool then a ++ b
  else a ++ "/" ++ b.

Definition header (claim_name : string) : row :=
  [Some "ROR ID"; Some "Wikidata ID"; Some claim_name].

(** The body of the inner loop of [generate_csv_files]. *)
Definition write_record (claim_name : string) (item : string * record)
  : M unit :=
  let '(ror_id, values) := item in
  v <- lift (getitem values claim_name) ;;
  if truthy v then
    wid <- lift (getitem values "wikidata_id") ;;
    v' <- lift (getitem values claim_name) ;;
    writerow [Some ror_id; wid; v']
  else ret tt.

Definition write_claim (data : page_data) (out_dir : string)
  (claim : string * string) : M unit :=
  let '(claim_id, claim_name) := claim in
  let output_file := path_join out_dir (claim_name ++ "_mapping.csv") in
  open_w output_file ;;
  writerow (header claim_name) ;;
  for_each (Dict.items data) (write_record claim_name) ;;
  logger_info ("Generated CSV file: " ++ output_file).

Definition generate_csv_files (data : page_data) (out_dir : string)
  (claims : claim_spec) : M unit :=
  makedirs out_dir ;;
  for_each (Dict.items claims) (write_claim data out_dir).

(** The merge loop of [main]: [all_data.update(result)] for each page. *)
Definition merge (results : list page_data) : page_data :=
  fold_left (fun all_data res => Dict.update all_data res) results Dict.empty.

(** [pool.map(worker_func, offsets)]: one call per offset, results in the
    order of the offsets.  The interleaving of the worker processes is not
    represented: the calls are run one after the other. *)
Definition pool_map {A B : Type} (f : A -> M B) (l : list A) : M (list B) :=
  map_M f l.

(** The [finally] clause of [main]. *)
Definition close_pool : M unit :=
  p <- get_pool ;;
  match p with
  | NoPool => ret tt
  | _ => set_pool PoolJoined
  end.

Definition main_body (a : args) : M unit :=
  claims <- parse_json_claims (input_file a) ;;
  let query := generate_sparql_query claims in
  set_pool PoolRunning ;;
  offsets <- lift (py_range (offset a) (offset a + limit a * 20) (limit a)) ;;
  results <- pool_map (fun off => worker (endpoint a) query claims (limit a)
                                         off (email a)) offsets ;;
  let all_data := merge results in
  generate_csv_files all_data (output_directory a) claims ;;
  logger_info ("CSV files have been generated in " ++ output_directory a).

Definition main (a : args) : M unit :=
  try_finally
    (try_except (main_body a)
       [ (cException, fun e => logger_error "An error occurred: " e) ])
    close_pool.

(** Running the script: exit status 0 when [main] returns, 1 when an
    exception escapes it. *)
Definition run_script (a : args) : Z * world :=
  match main a initial_world with
  | (Ok _, w) => (0%Z, w)
  | (Raise _, w) => (1%Z, w)
  end.

End Program.

(** ** Specification-side definitions *)

(** A binding carries a ["value"] for variable [var]. *)
Definition has_value (var : string) (b : binding) : bool :=
  match Dict.get var b with
  | Some entry =>
      match Dict.get "value" entry with
      | Some _ => true
      | None => false
      end
  | None => false
  end.

(** A binding the normaliser can process: both ["rorID"] and ["item"] carry
    a ["value"]. *)
Definition well_formed (b : binding) : bool :=
  has_value "rorID" b && has_value "item" b.

(** [wid] is what follows the last ["/"] of [uri] (the whole of [uri] when it
    has none). *)
Definition after_last_slash (uri wid : string) : Prop :=
  Str.contains "/" wid = false /\
  (uri = wid \/ exists pre, uri = pre ++ "/" ++ wid).

(** The value a record holds under [k], [None] also when [k] is absent. *)
Definition record_cell (values : record) (k : string) : opt_str :=
  match Dict.get k values with
  | Some v => v
  | None => None
  end.

(** The filter of the CSV emitter. *)
Definition passes (claim_name : string) (item : string * record) : bool :=
  truthy (record_cell (snd item) claim_name).

Definition row_of (claim_name : string) (item : string * record) : row :=
  [Some (fst item); record_cell (snd item) "wikidata_id";
   record_cell (snd item) claim_name].

(** Every record has ["wikidata_id"] and every claim name among its keys. *)
Definition complete (claims : claim_spec) (data : page_data) : Prop :=
  forall ror values, In (ror, values) data ->
    Dict.get "wikidata_id" values <> None /\
    forall name, In name (Dict.values claims) -> Dict.get name values <> None.

Fixpoint has_keys (ks : list string) (values : record) : bool :=
  match ks with
  | [] => true
  | k :: ks' =>
      match Dict.get k values with
      | Some _ => has_keys ks' values
      | None => false
      end
  end.

Definition completeb (claims : claim_spec) (data : page_data) : bool :=
  forallb (fun item => has_keys ("wikidata_id" :: Dict.values claims)
                                (snd item)) data.

(** The file the emitter writes for one claim. *)
Definition csv_file (data : page_data) (out_dir : string)
  (claim : string * string) : string * list row :=
  (path_join out_dir (snd claim ++ "_mapping.csv"),
   header (snd claim)
     :: map (row_of (snd claim)) (filter (passes (snd claim)) (Dict.items data))).

(** The offsets of the twenty pages. *)
Definition page_offsets (off lim : Z) : list Z :=
  map (fun k => (off + Z.of_nat k * lim)%Z) (seq 0 20).

(** What one worker returns and logs, read off the answers of the
    environment. *)
Definition worker_data (E : env) (endpoint_url query : string)
  (claims : claim_spec) (lim off : Z) (mail : option string) : page_data :=
  match http_get E (make_request endpoint_url query lim off mail) with
  | Ok results =>
      match process_wikidata_results results claims with
      | Ok d => d
      | Raise _ => Dict.empty
      end
  | Raise _ => Dict.empty
  end.

Definition worker_error (off : Z) (e : exn) : log_record :=
  LogRecord ERROR ("Error in worker (offset " ++ Str.of_Z off ++ "): ") (Some e).

Definition worker_log (E : env) (endpoint_url query : string)
  (claims : claim_spec) (lim off : Z) (mail : option string)
  : list log_record :=
  match http_get E (make_request endpoint_url query lim off mail) with
  | Ok results =>
      match process_wikidata_results results claims with
      | Ok _ => []
      | Raise e => [worker_error off e]
      end
  | Raise e =>
      (if isinstance e cRequestException
       then [LogRecord ERROR "Error executing SPARQL query: " (Some e)]
       else []) ++ [worker_error off e]
  end.

(** The log lines of the loader for an exception raised while loading. *)
Definition loader_log (e : exn) : list log_record :=
  if isinstance e cJSONDecodeError
  then [LogRecord ERROR "Error parsing JSON file: " (Some e)]
  else if isinstance e cIOError
  then [LogRecord ERROR "Error reading file: " (Some e)]
  else [].

Definition generated_info (out_dir : string) (claim : string * string)
  : log_record :=
  LogRecord INFO ("Generated CSV file: "
                  ++ path_join out_dir (snd claim ++ "_mapping.csv")) None.

(** The normaliser as a total function whose records always hold the tail of
    the item URI under ["wikidata_id"]. *)
Definition normalizer_total (results : list binding) (claims : claim_spec)
  : Prop :=
  exists d, process_wikidata_results results claims = Ok d /\
    forall k r, Dict.get k d = Some r ->
      exists b uri wid,
        In b results /\ claim_value b "rorID" = Some k
        /\ claim_value b "item" = Some uri /\ after_last_slash uri wid
        /\ Dict.get "wikidata_id" r = Some (Some wid)
        /\ forall name, In name (Dict.values claims) ->
             Dict.get name r = Some (claim_value b name).

(** The same, with ["wikidata_id"] promised only when no claim bears that
    name. *)
Definition normalizer_guarded (results : list binding) (claims : claim_spec)
  : Prop :=
  exists d, process_wikidata_results results claims = Ok d /\ Dict.wf d /\
    (forall k, In k (Dict.keys d) <->
               exists b, In b results /\ claim_value b "rorID" = Some k) /\
    forall k r, Dict.get k d = Some r ->
      exists b uri wid,
        In b results /\ claim_value b "rorID" = Some k
        /\ claim_value b "item" = Some uri /\ after_last_slash uri wid
        /\ (~ In "wikidata_id" (Dict.values claims) ->
            Dict.get "wikidata_id" r = Some (Some wid))
        /\ forall name, In name (Dict.values claims) ->
             Dict.get name r = Some (claim_value b name).

(** Lookup in the right-biased union of a sequence of pages: the record of
    the last page that has the key. *)
Definition right_biased_get (k : string) (pages : list page_data)
  : option record :=
  fold_left (fun acc p => match Dict.get k p with
                          | Some r => Some r
                          | None => acc
                          end) pages None.

(** The requests of a run and the aggregate [main] builds from the pages. *)
Definition page_requests (a : args) (claims : claim_spec) : list request :=
  map (fun off => make_request (endpoint a) (generate_sparql_query claims)
                               (limit a) off (email a))
      (page_offsets (offset a) (limit a)).

Definition pages_of (E : env) (a : args) (claims : claim_spec)
  : list page_data :=
  map (fun off => worker_data E (endpoint a) (generate_sparql_query claims)
                              claims (limit a) off (email a))
      (page_offsets (offset a) (limit a)).

Definition aggregate (E : env) (a : args) (claims : claim_spec) : page_data :=
  merge (pages_of E a claims).

Definition workers_log (E : env) (a : args) (claims : claim_spec)
  : list log_record :=
  concat (map (fun off => worker_log E (endpoint a)
                                     (generate_sparql_query claims) claims
                                     (limit a) off (email a))
              (page_offsets (offset a) (limit a))).

(** The path of the file of a claim. *)
Definition claim_path (out_dir : string) (claim : string * string) : string :=
  path_join out_dir (snd claim ++ "_mapping.csv").

(** The loader logs whatever loading raises before it re-raises it. *)
Definition loader_logs_all (E : env) (file_path : string) : Prop :=
  forall e w, load_json E file_path = Raise e ->
    exists w' r,
      parse_json_claims E file_path w = (Raise e, w')
      /\ log w' = (log w ++ [r])%list /\ log_exn r = Some e.

(** Insertion order: a key is added at the end unless it is there already. *)
Definition add_key (acc : list string) (k : string) : list string :=
  if Dict.mem k acc then acc else (acc ++ [k])%list.

(** The distinct elements of a list, in the order of their first
    occurrence. *)
Definition first_occurrences (l : list string) : list string :=
  fold_left add_key l [].

(** The key and the record the loop body of the normaliser assigns for one
    binding. *)
Definition binding_record (claims : claim_spec) (b : binding)
  : result (string * record) :=
  let? ror_id := ror_id_of b in
  let? wikidata_id := wikidata_id_of b in
  Ok (ror_id, make_record wikidata_id b claims).

Fixpoint page_records (claims : claim_spec) (results : list binding)
  : result (list (string * record)) :=
  match results with
  | [] => Ok []
  | b :: rest =>
      let? kv := binding_record claims b in
      let? kvs := page_records claims rest in
      Ok (kv :: kvs)
  end.

(** The log line of [execute_sparql_query] for an outcome of the request. *)
Definition request_log (r : result (list binding)) : list log_record :=
  match r with
  | Ok _ => []
  | Raise e =>
      if isinstance e cRequestException
      then [LogRecord ERROR "Error executing SPARQL query: " (Some e)]
      else []
  end.

(** Identifiers and names free of the characters that structure the query. *)
Definition plain (s : string) : Prop :=
  Str.contains "?" s = false /\ Str.contains "{" s = false
  /\ Str.contains "}" s = false
  /\ Str.contains (ascii_of_nat 10) s = false.

(** The key the normaliser misses first in a binding, if any. *)
Definition missing_key (b : binding) : option string :=
  match Dict.get "rorID" b with
  | None => Some "rorID"
  | Some ror_entry =>
      match Dict.get "value" ror_entry with
      | None => Some "value"
      | Some _ =>
          match Dict.get "item" b with
          | None => Some "item"
          | Some item_entry =>
              match Dict.get "value" item_entry with
              | None => Some "value"
              | Some _ => None
              end
          end
      end
  end.

(** The bindings a page request brought back, none when it failed. *)
Definition fetched (E : env) (a : args) (claims : claim_spec) (off : Z)
  : list binding :=
  match http_get E (make_request (endpoint a) (generate_sparql_query claims)
                                 (limit a) off (email a)) with
  | Ok results => results
  | Raise _ => []
  end.

(** ** Sample data *)

Module Sample.

Definition claims : claim_spec := [("P17", "country"); ("P856", "website")].

Definition mk_binding (ror item : string) (extra : binding) : binding :=
  ("item", [("type", "uri"); ("value", item)])
    :: ("rorID", [("type", "literal"); ("value", ror)]) :: extra.

Definition b1 : binding :=
  mk_binding "01abc" "http://www.wikidata.org/entity/Q1"
    [("country", [("type", "uri"); ("value", "http://www.wikidata.org/entity/Q30")])].

Definition b2 : binding :=
  mk_binding "01abc" "http://www.wikidata.org/entity/Q2"
    [("website", [("type", "uri"); ("value", "https://example.org")])].

Definition b3 : binding :=
  mk_binding "02xyz" "http://www.wikidata.org/entity/Q3" [].

(** A binding without the ["rorID"] variable. *)
Definition b_no_ror : binding :=
  [("item", [("type", "uri"); ("value", "http://www.wikidata.org/entity/Q4")])].

Definition page : list binding := [b1; b2; b3].

(** A claim spec whose only claim is named ["wikidata_id"]. *)
Definition clash : claim_spec := [("P1", "wikidata_id")].

(** An aggregate of two records. *)
Definition data : page_data :=
  [("01abc", [("wikidata_id", Some "Q2"); ("country", None);
              ("website", Some "https://example.org")]);
   ("02xyz", [("wikidata_id", Some "Q3"); ("country", Some EmptyString);
              ("website", None)])].

Definition page1 : page_data :=
  [("01abc", [("wikidata_id", Some "Q1"); ("country", Some "Q30")]);
   ("03klm", [("wikidata_id", Some "Q5"); ("country", None)])].

Definition page2 : page_data :=
  [("02xyz", [("wikidata_id", Some "Q3"); ("country", None)]);
   ("01abc", [("wikidata_id", Some "Q2"); ("country", Some "Q40")])].

Definition arguments : args :=
  Args "claims.json" "ror_wikidata_claims" "https://query.wikidata.org/sparql"
       10000 0 None.

(** A record without the key ["website"], between two complete ones. *)
Definition ragged : page_data :=
  [("01abc", [("wikidata_id", Some "Q2"); ("country", Some "Q30");
              ("website", Some "https://example.org")]);
   ("02xyz", [("wikidata_id", Some "Q3"); ("country", Some "Q40")]);
   ("03klm", [("wikidata_id", Some "Q5"); ("country", Some "Q50");
              ("website", Some "https://example.com")])].

(** Every page answers with [page]. *)
Definition world_full : env := Env (fun _ => Ok claims) (fun _ => Ok page).

(** The empty claim spec. *)
Definition world_no_claims : env :=
  Env (fun _ => Ok Dict.empty) (fun _ => Ok page).

(** The same command line with [--limit 0]. *)
Definition zero_limit : args :=
  Args "claims.json" "ror_wikidata_claims" "https://query.wikidata.org/sparql"
       0 0 None.

(** The first page answers with [page]; every other request fails. *)
Definition first_page_only (req : request) : result (list binding) :=
  match Dict.get "query" (req_params req) with
  | Some q =>
      if String.eqb q (full_query (generate_sparql_query claims) 10000 0)
      then Ok page
      else Raise (RequestException "503 Server Error")
  | None => Raise (RequestException "400 Bad Request")
  end.

Definition world_ok : env := Env (fun _ => Ok claims) first_page_only.

(** The claims file holds bytes that are not valid text. *)
Definition world_undecodable : env :=
  Env (fun _ => Raise (UnicodeDecodeError "invalid start byte"))
      first_page_only.

(** The claims file does not exist. *)
Definition world_missing : env :=
  Env (fun _ => Raise (OSError "No such file or directory")) first_page_only.

(** The page [page] with a binding without ["rorID"] in the middle. *)
Definition broken_page : list binding := [b1; b_no_ror; b3].

Definition world_broken : env :=
  Env (fun _ => Ok claims) (fun _ => Ok broken_page).

End Sample.

(** ** Strings: basic facts *)

Module StrFacts.

Lemma app_nil_r (s : string) : s ++ EmptyString = s.
Proof. induction s as [|c s IH]; simpl; [reflexivity | now rewrite IH]. Qed.

Lemma app_assoc (a b c : string) : (a ++ b) ++ c = a ++ (b ++ c).
Proof. induction a as [|x a IH]; simpl; [reflexivity | now rewrite IH]. Qed.

Lemma count_app (c : ascii) (a b : string) :
  Str.count c (a ++ b) = Str.count c a + Str.count c b.
Proof.
  induction a as [|x a IH]; simpl; [reflexivity|].
  rewrite IH. destruct (Ascii.eqb x c); lia.
Qed.

Lemma count_none (c : ascii) (s : string) :
  Str.contains c s = false -> Str.count c s = 0.
Proof.
  induction s as [|x s IH]; simpl; [reflexivity|].
  destruct (Ascii.eqb x c); simpl; [discriminate | exact IH].
Qed.

Lemma split_nonempty (sep : ascii) (s : string) : Str.split sep s <> [].
Proof.
  induction s as [|c s IH]; simpl; [discriminate|].
  destruct (Ascii.eqb c sep); [discriminate|].
  destruct (Str.split sep s); [contradiction | discriminate].
Qed.

Lemma getitem_last_total (l : list string) :
  l <> [] -> exists x, getitem_last l = Ok x.
Proof.
  induction l as [|a l IH]; [contradiction|]. intros _.
  destruct l as [|b l]; [now exists a|].
  destruct IH as [x Hx]; [discriminate|]. exists x. exact Hx.
Qed.

Lemma split_last_shape (s wid : string) :
  getitem_last (Str.split "/" s) = Ok wid ->
  Str.contains "/" wid = false /\
  ((Str.split "/" s = [wid] /\ s = wid) \/
   (1 < length (Str.split "/" s) /\ exists pre, s = pre ++ "/" ++ wid)).
Proof.
  revert wid. induction s as [|c s IH]; intros wid; simpl.
  - intros H. injection H as <-. split; [reflexivity | now left].
  - pose proof (split_nonempty "/" s) as Hne.
    destruct (Str.split "/" s) as [|h t] eqn:Hs; [contradiction|].
    destruct (Ascii.eqb c "/") eqn:Hc.
    + apply Ascii.eqb_eq in Hc. subst c. intros H.
      destruct (IH wid H) as [Hno Hor]. split; [exact Hno|].
      right. split; [simpl; lia|].
      destruct Hor as [[_ ->] | [_ [pre ->]]].
      * now exists EmptyString.
      * now exists (String "/" pre).
    + destruct t as [|h' t].
      * intros H. injection H as <-.
        destruct (IH h eq_refl) as [Hno Hor].
        split; [simpl; now rewrite Hc|].
        destruct Hor as [[_ ->] | [Hlen _]]; [now left | simpl in Hlen; lia].
      * intros H. destruct (IH wid H) as [Hno Hor]. split; [exact Hno|].
        right. split; [simpl; lia|].
        destruct Hor as [[Heq _] | [_ [pre ->]]]; [discriminate|].
        now exists (String c pre).
Qed.

(** The last field of a split is what follows the last separator. *)
Lemma split_last (s wid : string) :
  getitem_last (Str.split "/" s) = Ok wid -> after_last_slash s wid.
Proof.
  intros H. destruct (split_last_shape s H) as [Hno Hor].
  split; [exact Hno|].
  destruct Hor as [[_ ->] | [_ Hpre]]; [now left | now right].
Qed.

End StrFacts.

(** ** Dictionaries: basic facts *)

Module DictFacts.

Section Facts.
Variable V : Type.
Implicit Types (d other : Dict.t V) (k : string) (v : V).

Lemma get_set_same d k v : Dict.get k (Dict.set k v d) = Some v.
Proof.
  induction d as [|[k' v'] d IH]; simpl.
  - now rewrite String.eqb_refl.
  - destruct (String.eqb k k') eqn:Hk; simpl; rewrite Hk; [reflexivity | exact IH].
Qed.

Lemma get_set_other d k k' v :
  k <> k' -> Dict.get k (Dict.set k' v d) = Dict.get k d.
Proof.
  intros Hne. induction d as [|[k1 v1] d IH]; simpl.
  - apply String.eqb_neq in Hne. now rewrite Hne.
  - destruct (String.eqb_spec k' k1) as [<-|Hk]; simpl.
    + apply String.eqb_neq in Hne. now rewrite Hne.
    + now rewrite IH.
Qed.

Lemma get_set d k k' v :
  Dict.get k (Dict.set k' v d)
  = if String.eqb k k' then Some v else Dict.get k d.
Proof.
  destruct (String.eqb_spec k k') as [->|Hne].
  - apply get_set_same.
  - now apply get_set_other.
Qed.

Lemma In_set d k v x :
  In x (Dict.set k v d) -> x = (k, v) \/ In x d.
Proof.
  induction d as [|[k' v'] d IH]; simpl.
  - intros [<-|[]]. now left.
  - destruct (String.eqb_spec k k') as [->|Hne]; simpl.
    + intros [<-|H]; [now left | now right; right].
    + intros [<-|H]; [now right; left|].
      destruct (IH H) as [->|H']; [now left | now right; right].
Qed.

Lemma keys_set d k v k' :
  In k' (Dict.keys (Dict.set k v d)) <-> k' = k \/ In k' (Dict.keys d).
Proof.
  induction d as [|[k1 v1] d IH]; simpl.
  - split; [intros [<-|[]]; now left | intros [->|[]]; now left].
  - destruct (String.eqb_spec k k1) as [->|Hne]; simpl.
    + split; [intros [<-|H]; [now left | now right; right]|].
      intros [->|[<-|H]]; [now left | now left | now right].
    + rewrite IH. split.
      * intros [<-|[->|H]]; [now right; left | now left | now right; right].
      * intros [->|[<-|H]]; [now right; left | now left | now right; right].
Qed.

Lemma wf_set d k v : Dict.wf d -> Dict.wf (Dict.set k v d).
Proof.
  unfold Dict.wf. induction d as [|[k1 v1] d IH]; simpl; intros Hwf.
  - constructor; [intros [] | constructor].
  - inversion Hwf as [|? ? Hnotin Hwf']; subst.
    destruct (String.eqb_spec k k1) as [->|Hne]; simpl.
    + now constructor.
    + constructor; [|now apply IH].
      intros Hin. apply (keys_set d k v k1) in Hin.
      destruct Hin as [->|Hin]; [now apply Hne | now apply Hnotin].
Qed.

Lemma get_notin d k : ~ In k (Dict.keys d) -> Dict.get k d = None.
Proof.
  induction d as [|[k1 v1] d IH]; simpl; [reflexivity|]. intros Hnotin.
  destruct (String.eqb_spec k k1) as [->|Hne].
  - exfalso. apply Hnotin. now left.
  - apply IH. intros Hin. apply Hnotin. now right.
Qed.

Lemma get_Some_In d k v : Dict.get k d = Some v -> In (k, v) d.
Proof.
  induction d as [|[k1 v1] d IH]; simpl; [discriminate|].
  destruct (String.eqb_spec k k1) as [->|Hne].
  - intros H. injection H as ->. now left.
  - intros H. right. now apply IH.
Qed.

Lemma In_get_wf d k v : Dict.wf d -> In (k, v) d -> Dict.get k d = Some v.
Proof.
  unfold Dict.wf. induction d as [|[k1 v1] d IH]; simpl; [intros _ []|].
  intros Hwf Hin. inversion Hwf as [|? ? Hnotin Hwf']; subst.
  destruct Hin as [Heq|Hin].
  - injection Heq as -> ->. now rewrite String.eqb_refl.
  - destruct (String.eqb_spec k k1) as [->|Hne]; [|now apply IH].
    exfalso. apply Hnotin. change k1 with (fst (k1, v)).
    now apply in_map.
Qed.

Lemma In_get d k v : In (k, v) d -> Dict.get k d <> None.
Proof.
  induction d as [|[k1 v1] d IH]; simpl; [intros []|].
  intros Hin. destruct (String.eqb_spec k k1) as [->|Hne]; [discriminate|].
  destruct Hin as [Heq|Hin]; [|now apply IH].
  injection Heq as -> _. now contradiction Hne.
Qed.

Lemma get_keys d k : Dict.get k d <> None <-> In k (Dict.keys d).
Proof.
  split.
  - intros H. destruct (Dict.get k d) as [v|] eqn:Hg; [|contradiction].
    apply get_Some_In in Hg. change k with (fst (k, v)). now apply in_map.
  - intros Hin Hnone. unfold Dict.keys in Hin. apply in_map_iff in Hin.
    destruct Hin as [[k1 v1] [Hk Hin]]. simpl in Hk. subst k1.
    now apply (In_get _ _ _ Hin).
Qed.

Lemma update_nil d : Dict.update d [] = d.
Proof. reflexivity. Qed.

Lemma wf_update d other : Dict.wf d -> Dict.wf (Dict.update d other).
Proof.
  unfold Dict.update. revert d.
  induction other as [|[k v] o IH]; simpl; intros d Hwf; [exact Hwf|].
  apply IH. now apply wf_set.
Qed.

Lemma get_update d other k :
  Dict.wf other ->
  Dict.get k (Dict.update d other)
  = match Dict.get k other with
    | Some v => Some v
    | None => Dict.get k d
    end.
Proof.
  unfold Dict.update, Dict.wf. revert d.
  induction other as [|[k1 v1] o IH]; simpl; intros d Hwf; [reflexivity|].
  inversion Hwf as [|? ? Hnotin Hwf']; subst.
  rewrite (IH _ Hwf'). destruct (String.eqb_spec k k1) as [->|Hne].
  - rewrite (get_notin _ _ Hnotin). apply get_set_same.
  - now rewrite get_set_other.
Qed.

Lemma In_update d other x :
  In x (Dict.update d other) -> In x d \/ In x other.
Proof.
  unfold Dict.update. revert d.
  induction other as [|[k v] o IH]; simpl; intros d Hin; [now left|].
  destruct (IH _ Hin) as [H|H]; [|now right; right].
  destruct (In_set _ _ _ _ H) as [->|H']; [now right; left | now left].
Qed.

Lemma mem_In k (l : list string) : Dict.mem k l = true <-> In k l.
Proof.
  induction l as [|k1 l IH]; simpl; [split; [discriminate | intros []]|].
  rewrite orb_true_iff, IH, String.eqb_eq.
  split; (intros [H|H]; [left; now symmetry | now right]).
Qed.

Lemma wfb_wf d : Dict.wfb d = true -> Dict.wf d.
Proof.
  unfold Dict.wf. induction d as [|[k v] d IH]; simpl; [constructor|].
  intros H. apply andb_true_iff in H as [Hk Hd].
  constructor; [|now apply IH].
  intros Hin. apply mem_In in Hin. apply negb_true_iff in Hk.
  unfold Dict.keys in *. congruence.
Qed.

End Facts.

End DictFacts.

(** ** The query builder *)

Lemma query_step_eq (sel whr : string) (c : string * string) :
  query_step (sel, whr) c = (sel ++ select_var c, whr ++ optional_clause c).
Proof. destruct c as [claim_id claim_name]. reflexivity. Qed.

Lemma join_cons (x : string) (l : list string) :
  Str.join (x :: l) = x ++ Str.join l.
Proof. reflexivity. Qed.

Lemma fold_query_step (claims : list (string * string)) (sel whr : string) :
  fold_left query_step claims (sel, whr)
  = (sel ++ Str.join (map select_var claims),
     whr ++ Str.join (map optional_clause claims)).
Proof.
  revert sel whr. induction claims as [|c claims IH]; intros sel whr.
  - cbn [fold_left map]. change (Str.join []) with EmptyString.
    now rewrite !StrFacts.app_nil_r.
  - cbn [fold_left map]. rewrite query_step_eq, IH, !join_cons.
    now rewrite !StrFacts.app_assoc.
Qed.

Lemma query_clauses_eq (claims : claim_spec) :
  query_clauses claims
  = (select_init ++ Str.join (map select_var claims),
     (where_init ++ Str.join (map optional_clause claims)) ++ Str.nl ++ "}").
Proof.
  unfold query_clauses, Dict.items. now rewrite fold_query_step.
Qed.

(** C1.  The query is the SELECT clause, a line feed and the WHERE clause.
    The SELECT clause is [SELECT ?item ?rorID] followed by one [ ?name] per
    entry of the claim spec, in order; the WHERE clause is the fixed ROR
    pattern followed by one [OPTIONAL { ?item wdt:id ?name }] line per entry,
    in order, and the closing brace.  For the empty spec only [?item] and
    [?rorID] are selected and there is no OPTIONAL line. *)
Theorem generate_sparql_query_shape :
  forall claims : claim_spec,
    generate_sparql_query claims
    = ("SELECT ?item ?rorID"
         ++ Str.join (map (fun c => " ?" ++ snd c) (Dict.items claims)))
      ++ Str.nl
      ++ (("WHERE {" ++ Str.nl ++ "  ?item wdt:P6782 ?rorID ."
            ++ Str.join (map (fun c => Str.nl ++ "  OPTIONAL { ?item wdt:"
                                        ++ fst c ++ " ?" ++ snd c ++ " }")
                             (Dict.items claims)))
          ++ Str.nl ++ "}")
    /\ length (map (fun c => " ?" ++ snd c) (Dict.items claims))
       = length claims
    /\ length (map (fun c => Str.nl ++ "  OPTIONAL { ?item wdt:"
                              ++ fst c ++ " ?" ++ snd c ++ " }")
                   (Dict.items claims))
       = length claims
    /\ generate_sparql_query Dict.empty
       = "SELECT ?item ?rorID" ++ Str.nl
         ++ "WHERE {" ++ Str.nl ++ "  ?item wdt:P6782 ?rorID ." ++ Str.nl ++ "}".
Proof.
  intros claims. repeat split.
  - unfold generate_sparql_query. rewrite query_clauses_eq.
    unfold select_init, where_init, Dict.items.
    change (map select_var claims) with (map (fun c => " ?" ++ snd c) claims).
    change (map optional_clause claims)
      with (map (fun c => Str.nl ++ "  OPTIONAL { ?item wdt:"
                            ++ fst c ++ " ?" ++ snd c ++ " }") claims).
    now rewrite !StrFacts.app_assoc.
  - apply length_map.
  - apply length_map.
Qed.

Lemma count_select_vars (claims : claim_spec) :
  Forall (fun c => Str.contains "?" (snd c) = false) claims ->
  Str.count "?" (Str.join (map select_var claims)) = length claims.
Proof.
  intros Hsafe. induction Hsafe as [|[i n] l Hq _ IH]; [reflexivity|].
  cbn [map length]. rewrite join_cons, StrFacts.count_app, IH.
  unfold select_var. cbn [snd] in *.
  rewrite StrFacts.count_app, (StrFacts.count_none _ _ Hq). reflexivity.
Qed.

Lemma count_optional_clauses (claims : claim_spec) :
  Forall (fun c => Str.contains "{" (fst c) = false
                   /\ Str.contains "{" (snd c) = false) claims ->
  Str.count "{" (Str.join (map optional_clause claims)) = length claims.
Proof.
  intros Hsafe. induction Hsafe as [|[i n] l [Hi Hn] _ IH]; [reflexivity|].
  cbn [map length]. rewrite join_cons, StrFacts.count_app, IH.
  unfold optional_clause. cbn [fst snd] in *.
  rewrite !StrFacts.count_app, (StrFacts.count_none _ _ Hi),
    (StrFacts.count_none _ _ Hn). reflexivity.
Qed.

(** Counting the text: when no identifier or name contains a question mark
    or an opening brace, the SELECT clause has two variables and one more per
    claim, and the WHERE clause opens one group and one more per claim. *)
Lemma query_clauses_count (claims : claim_spec) :
  Forall (fun c => Str.contains "?" (snd c) = false
                   /\ Str.contains "{" (fst c) = false
                   /\ Str.contains "{" (snd c) = false) claims ->
  Str.count "?" (fst (query_clauses claims)) = 2 + length claims
  /\ Str.count "{" (snd (query_clauses claims)) = 1 + length claims.
Proof.
  intros Hsafe. rewrite query_clauses_eq. cbn [fst snd].
  rewrite !StrFacts.count_app, count_select_vars, count_optional_clauses.
  - split; [reflexivity|].
    change (Str.count "{" where_init) with 1.
    change (Str.count "{" Str.nl + Str.count "{" "}") with 0. lia.
  - eapply Forall_impl; [|exact Hsafe]. cbv beta. intros c [? [? ?]]; auto.
  - eapply Forall_impl; [|exact Hsafe]. cbv beta. intros c [? [? ?]]; auto.
Qed.

(** ** The normaliser *)

Lemma fold_result_app {A B : Type} (f : A -> B -> result A) (l1 l2 : list B)
  (a : A) :
  fold_result f (l1 ++ l2) a
  = (let? a' := fold_result f l1 a in fold_result f l2 a').
Proof.
  revert a. induction l1 as [|x l1 IH]; intros a; simpl; [reflexivity|].
  destruct (f a x) as [a'|e]; simpl; [apply IH | reflexivity].
Qed.

Lemma ror_id_of_value (b : binding) (k : string) :
  ror_id_of b = Ok k <-> claim_value b "rorID" = Some k.
Proof.
  unfold ror_id_of, claim_value, getitem, rbind.
  destruct (Dict.get "rorID" b) as [entry|]; simpl.
  - destruct (Dict.get "value" entry) as [v|]; split; intros H;
      try discriminate; now injection H as ->.
  - split; discriminate.
Qed.

Lemma wikidata_id_of_value (b : binding) (wid : string) :
  wikidata_id_of b = Ok wid ->
  exists uri, claim_value b "item" = Some uri /\ after_last_slash uri wid.
Proof.
  unfold wikidata_id_of, claim_value, getitem, rbind.
  destruct (Dict.get "item" b) as [entry|]; simpl; [|discriminate].
  destruct (Dict.get "value" entry) as [uri|]; [|discriminate].
  intros H. exists uri. split; [reflexivity | now apply StrFacts.split_last].
Qed.

(** A well-formed binding yields its two identifiers. *)
Lemma well_formed_ids (b : binding) :
  well_formed b = true ->
  exists ror wid, ror_id_of b = Ok ror /\ wikidata_id_of b = Ok wid.
Proof.
  unfold well_formed, has_value, ror_id_of, wikidata_id_of, getitem, rbind.
  intros H. apply andb_true_iff in H as [Hr Hi].
  destruct (Dict.get "rorID" b) as [er|]; [|discriminate].
  destruct (Dict.get "value" er) as [ror|]; [|discriminate].
  destruct (Dict.get "item" b) as [ei|]; [|discriminate].
  destruct (Dict.get "value" ei) as [uri|]; [|discriminate].
  destruct (StrFacts.getitem_last_total (StrFacts.split_nonempty "/" uri))
    as [wid Hw].
  exists ror, wid. now split.
Qed.

(** On any other binding the loop body raises a [KeyError]. *)
Lemma process_step_malformed (claims : claim_spec) (d : page_data)
  (b : binding) :
  well_formed b = false ->
  exists key, process_step claims d b = Raise (KeyError key)
              /\ In key ["rorID"; "item"; "value"].
Proof.
  unfold well_formed, has_value, process_step, ror_id_of, wikidata_id_of,
    getitem, rbind.
  intros H.
  destruct (Dict.get "rorID" b) as [er|];
    [|exists "rorID"; split; [reflexivity | simpl; tauto]].
  destruct (Dict.get "value" er) as [ror|];
    [|exists "value"; split; [reflexivity | simpl; tauto]].
  destruct (Dict.get "item" b) as [ei|];
    [|exists "item"; split; [reflexivity | simpl; tauto]].
  destruct (Dict.get "value" ei) as [uri|];
    [|exists "value"; split; [reflexivity | simpl; tauto]].
  discriminate.
Qed.

Lemma process_step_ok (claims : claim_spec) (d d' : page_data) (b : binding) :
  process_step claims d b = Ok d' ->
  exists ror wid, ror_id_of b = Ok ror /\ wikidata_id_of b = Ok wid
                  /\ d' = Dict.set ror (make_record wid b claims) d.
Proof.
  unfold process_step, rbind.
  destruct (ror_id_of b) as [ror|]; [|discriminate].
  destruct (wikidata_id_of b) as [wid|]; [|discriminate].
  intros H. injection H as <-. now exists ror, wid.
Qed.

Lemma process_step_well_formed (claims : claim_spec) (d : page_data)
  (b : binding) :
  well_formed b = true -> exists d', process_step claims d b = Ok d'.
Proof.
  intros H. destruct (well_formed_ids b H) as [ror [wid [Hr Hw]]].
  unfold process_step. rewrite Hr, Hw. simpl. eauto.
Qed.

Section Fold.
Variable claims : claim_spec.

Lemma process_fold_total (results : list binding) (d0 : page_data) :
  Forall (fun b => well_formed b = true) results ->
  exists d, fold_result (process_step claims) results d0 = Ok d.
Proof.
  intros Hwf. revert d0. induction Hwf as [|b l Hb _ IH]; intros d0; simpl.
  - now exists d0.
  - destruct (process_step_well_formed claims d0 b Hb) as [d' ->]. simpl.
    apply IH.
Qed.

Lemma process_fold_raises (results : list binding) (d0 : page_data) :
  Exists (fun b => well_formed b = false) results ->
  exists key, fold_result (process_step claims) results d0 = Raise (KeyError key)
              /\ In key ["rorID"; "item"; "value"].
Proof.
  intros Hex. revert d0. induction results as [|b l IH]; intros d0.
  - inversion Hex.
  - simpl. destruct (well_formed b) eqn:Hb.
    + destruct (process_step_well_formed claims d0 b Hb) as [d' ->]. simpl.
      apply IH. inversion Hex as [? ? H|? ? H]; subst; [congruence | exact H].
    + destruct (process_step_malformed claims d0 b Hb) as [key [-> Hkey]].
      now exists key.
Qed.

Lemma process_fold_wf (results : list binding) (d0 d : page_data) :
  Dict.wf d0 -> fold_result (process_step claims) results d0 = Ok d ->
  Dict.wf d.
Proof.
  revert d0. induction results as [|b l IH]; intros d0 Hwf; simpl.
  - intros H. now injection H as <-.
  - destruct (process_step claims d0 b) as [d'|] eqn:Hs; [|discriminate].
    simpl. apply IH.
    destruct (process_step_ok _ _ _ Hs) as [ror [wid [_ [_ ->]]]].
    now apply DictFacts.wf_set.
Qed.

(** Bindings with another ROR identifier leave the entry of [k] alone. *)
Lemma process_fold_other (results : list binding) (d0 d : page_data)
  (k : string) :
  fold_result (process_step claims) results d0 = Ok d ->
  (forall b, In b results -> ror_id_of b <> Ok k) ->
  Dict.get k d = Dict.get k d0.
Proof.
  revert d0. induction results as [|b l IH]; intros d0; simpl.
  - intros H _. now injection H as <-.
  - destruct (process_step claims d0 b) as [d'|] eqn:Hs; [|discriminate].
    simpl. intros Hf Hne.
    rewrite (IH d' Hf (fun b' Hin => Hne b' (or_intror Hin))).
    destruct (process_step_ok _ _ _ Hs) as [ror [wid [Hr [_ ->]]]].
    apply DictFacts.get_set_other. intros <-. now apply (Hne b (or_introl eq_refl)).
Qed.

(** Where every record of the result comes from. *)
Lemma process_fold_In (results : list binding) (d0 d : page_data)
  (k : string) (r : record) :
  fold_result (process_step claims) results d0 = Ok d ->
  In (k, r) d ->
  In (k, r) d0 \/
  exists b wid, In b results /\ ror_id_of b = Ok k
                /\ wikidata_id_of b = Ok wid /\ r = make_record wid b claims.
Proof.
  revert d0. induction results as [|b l IH]; intros d0; simpl.
  - intros H Hin. injection H as <-. now left.
  - destruct (process_step claims d0 b) as [d'|] eqn:Hs; [|discriminate].
    simpl. intros Hf Hin.
    destruct (process_step_ok _ _ _ Hs) as [ror [wid [Hr [Hw ->]]]].
    destruct (IH _ Hf Hin) as [H|[b' [wid' [Hb' H]]]].
    + destruct (DictFacts.In_set _ _ _ _ H) as [Heq|H0]; [|now left].
      injection Heq as -> ->. right. exists b, wid. tauto.
    + right. exists b', wid'. tauto.
Qed.

Lemma process_fold_keys (results : list binding) (d0 d : page_data)
  (k : string) :
  fold_result (process_step claims) results d0 = Ok d ->
  (In k (Dict.keys d) <->
   In k (Dict.keys d0) \/ exists b, In b results /\ ror_id_of b = Ok k).
Proof.
  revert d0. induction results as [|b l IH]; intros d0; simpl.
  - intros H. injection H as <-. split; [now left|].
    intros [H|[b [[] _]]]. exact H.
  - destruct (process_step claims d0 b) as [d'|] eqn:Hs; [|discriminate].
    simpl. intros Hf. rewrite (IH _ Hf).
    destruct (process_step_ok _ _ _ Hs) as [ror [wid [Hr [Hw ->]]]].
    rewrite DictFacts.keys_set. split.
    + intros [[->|H]|[b' [Hin Hb']]].
      * right. exists b. tauto.
      * now left.
      * right. exists b'. tauto.
    + intros [H|[b' [[<-|Hin] Hb']]].
      * left. now right.
      * left. left. congruence.
      * right. exists b'. tauto.
Qed.

End Fold.

(** *** Records *)

Lemma claim_values_fold (res : binding) (names : list string) (acc : record)
  (name : string) :
  Dict.get name
    (fold_left (fun a n => Dict.set n (claim_value res n) a) names acc)
  = if Dict.mem name names then Some (claim_value res name)
    else Dict.get name acc.
Proof.
  revert acc. induction names as [|n names IH]; intros acc; simpl;
    [reflexivity|].
  rewrite IH, DictFacts.get_set.
  destruct (String.eqb_spec name n) as [->|Hne]; simpl;
    now destruct (Dict.mem _ names).
Qed.

Lemma claim_values_wf (res : binding) (claims : claim_spec) :
  Dict.wf (claim_values res claims).
Proof.
  unfold claim_values.
  assert (H : forall names acc, Dict.wf acc ->
            Dict.wf (fold_left (fun a n => Dict.set n (claim_value res n) a)
                               names acc)).
  { induction names as [|n names IH]; intros acc Hacc; simpl; [exact Hacc|].
    apply IH. now apply DictFacts.wf_set. }
  apply H. constructor.
Qed.

Lemma make_record_get (wid : string) (res : binding) (claims : claim_spec)
  (name : string) :
  Dict.get name (make_record wid res claims)
  = if Dict.mem name (Dict.values claims) then Some (claim_value res name)
    else if String.eqb name "wikidata_id" then Some (Some wid) else None.
Proof.
  unfold make_record.
  rewrite DictFacts.get_update by apply claim_values_wf.
  unfold claim_values. rewrite claim_values_fold.
  destruct (Dict.mem name (Dict.values claims)); [reflexivity|].
  simpl. now destruct (String.eqb name "wikidata_id").
Qed.

Lemma make_record_claim (wid : string) (res : binding) (claims : claim_spec)
  (name : string) :
  In name (Dict.values claims) ->
  Dict.get name (make_record wid res claims) = Some (claim_value res name).
Proof.
  intros Hin. rewrite make_record_get.
  apply DictFacts.mem_In in Hin. now rewrite Hin.
Qed.

Lemma make_record_wikidata_id (wid : string) (res : binding)
  (claims : claim_spec) :
  ~ In "wikidata_id" (Dict.values claims) ->
  Dict.get "wikidata_id" (make_record wid res claims) = Some (Some wid).
Proof.
  intros Hnot. rewrite make_record_get.
  destruct (Dict.mem "wikidata_id" (Dict.values claims)) eqn:Hm;
    [|reflexivity].
  apply DictFacts.mem_In in Hm. contradiction.
Qed.

Lemma make_record_complete (wid : string) (res : binding)
  (claims : claim_spec) :
  Dict.get "wikidata_id" (make_record wid res claims) <> None /\
  forall name, In name (Dict.values claims) ->
    Dict.get name (make_record wid res claims) <> None.
Proof.
  split.
  - rewrite make_record_get.
    destruct (Dict.mem "wikidata_id" (Dict.values claims)); discriminate.
  - intros name Hin. now rewrite make_record_claim.
Qed.

(** Every record of a normalised page is complete. *)
Lemma process_complete (results : list binding) (claims : claim_spec)
  (d : page_data) :
  process_wikidata_results results claims = Ok d -> complete claims d.
Proof.
  intros H ror values Hin.
  destruct (process_fold_In _ _ _ _ _ H Hin) as [[]|[b [wid [_ [_ [_ ->]]]]]].
  apply make_record_complete.
Qed.

(** C7 (as amended).  On a page whose bindings all carry a value for
    ["rorID"] and for ["item"], the normaliser, a function of the page and
    the claim spec alone, returns a mapping with pairwise distinct keys whose
    keys are exactly the ["rorID"] values of the page.  Each record comes
    from a binding with that ["rorID"] value: every claim name maps to the
    value the binding has for that variable, or to [None] when it has none,
    and, when no claim is named ["wikidata_id"], the record holds under
    ["wikidata_id"] what follows the last ["/"] of the binding's ["item"]
    value. *)
Theorem process_wikidata_results_guarded :
  forall (results : list binding) (claims : claim_spec),
    Forall (fun b => well_formed b = true) results ->
    normalizer_guarded results claims.
Proof.
  intros results claims Hwf.
  destruct (process_fold_total claims Dict.empty Hwf) as [d Hd].
  exists d. split; [exact Hd|]. split; [|split].
  - apply (process_fold_wf claims results (d0 := Dict.empty)); [constructor | exact Hd].
  - intros k. unfold process_wikidata_results in Hd.
    rewrite (process_fold_keys claims results Dict.empty k Hd).
    split.
    + intros [[]|[b [Hin Hb]]]. exists b. split; [exact Hin|].
      now apply ror_id_of_value.
    + intros [b [Hin Hb]]. right. exists b. split; [exact Hin|].
      now apply ror_id_of_value.
  - intros k r Hget. apply DictFacts.get_Some_In in Hget.
    destruct (process_fold_In _ _ _ _ _ Hd Hget)
      as [[]|[b [wid [Hin [Hr [Hw ->]]]]]].
    destruct (wikidata_id_of_value _ Hw) as [uri [Huri Hlast]].
    exists b, uri, wid. repeat split; try assumption.
    + now apply ror_id_of_value.
    + apply Hlast.
    + apply Hlast.
    + now apply make_record_wikidata_id.
    + intros name Hname. now apply make_record_claim.
Qed.

Lemma process_wikidata_results_guarded_witness :
  Forall (fun b => well_formed b = true) Sample.page
  /\ normalizer_guarded Sample.page Sample.claims.
Proof.
  assert (H : Forall (fun b => well_formed b = true) Sample.page)
    by (repeat constructor).
  split; [exact H|].
  exact (process_wikidata_results_guarded Sample.claims H).
Defined.

(** C7 fails as stated: a binding without ["rorID"] makes the normaliser
    raise instead of returning a mapping, and with a claim named
    ["wikidata_id"] the record holds the claim value, not the tail of the
    item URI, under that key. *)
Lemma normalizer_total_counterexample :
  ~ normalizer_total [Sample.b_no_ror] Sample.claims
  /\ ~ normalizer_total [Sample.b3] Sample.clash.
Proof.
  split.
  - intros [d [Hd _]]. vm_compute in Hd. discriminate.
  - intros [d [Hd Hrec]]. vm_compute in Hd. injection Hd as <-.
    destruct (Hrec "02xyz" [("wikidata_id", None)] eq_refl)
      as [b [uri [wid [_ [_ [_ [_ [Hwid _]]]]]]]].
    vm_compute in Hwid. discriminate.
Qed.

(** ** Workers *)

Ltac unfold_M :=
  cbv [try_except try_finally bind ret raise lift logger_error logger_info
       record_request makedirs open_w writerow set_pool get_pool dispatch
       isinstance requests dirs files log pool].

(** A worker always returns: its page, one request and its log lines. *)
Lemma worker_run (E : env) (endpoint_url query : string) (claims : claim_spec)
  (lim off : Z) (mail : option string) (w : world) :
  worker E endpoint_url query claims lim off mail w
  = (Ok (worker_data E endpoint_url query claims lim off mail),
     World (requests w ++ [make_request endpoint_url query lim off mail])
           (dirs w) (files w)
           (log w ++ worker_log E endpoint_url query claims lim off mail)
           (pool w)).
Proof.
  unfold worker, execute_sparql_query, worker_data, worker_log, worker_error.
  unfold_M.
  destruct (http_get E (make_request endpoint_url query lim off mail))
    as [results|e].
  - destruct (process_wikidata_results results claims) as [d|e].
    + now rewrite app_nil_r.
    + reflexivity.
  - destruct e; cbn [app]; try reflexivity. now rewrite <- app_assoc.
Qed.

Lemma pool_map_workers (E : env) (endpoint_url query : string)
  (claims : claim_spec) (lim : Z) (mail : option string) (offsets : list Z)
  (w : world) :
  pool_map (fun off => worker E endpoint_url query claims lim off mail)
           offsets w
  = (Ok (map (fun off => worker_data E endpoint_url query claims lim off mail)
             offsets),
     World (requests w
            ++ map (fun off => make_request endpoint_url query lim off mail)
                   offsets)
           (dirs w) (files w)
           (log w ++ concat (map (fun off => worker_log E endpoint_url query
                                               claims lim off mail) offsets))
           (pool w)).
Proof.
  unfold pool_map. revert w. induction offsets as [|off offsets IH]; intros w.
  - destruct w. cbn. now rewrite !app_nil_r.
  - cbn [map_M map concat]. unfold bind at 1. rewrite worker_run.
    unfold bind at 1. rewrite IH. unfold ret.
    cbn [requests dirs files log pool]. now rewrite <- !app_assoc.
Qed.

(** ** The CSV emitter *)

Lemma append_row_last (r : row) (fs : list (string * list row)) (p : string)
  (rows : list row) :
  append_row r (fs ++ [(p, rows)]) = (fs ++ [(p, rows ++ [r])])%list.
Proof.
  induction fs as [|[p' rows'] fs IH]; [reflexivity|].
  cbn [app].
  assert (Hne : (fs ++ [(p, rows)])%list <> []) by (destruct fs; discriminate).
  destruct (fs ++ [(p, rows)])%list as [|g gs] eqn:Hg; [contradiction|].
  change (append_row r ((p', rows') :: g :: gs))
    with ((p', rows') :: append_row r (g :: gs)).
  now rewrite IH.
Qed.

Lemma write_record_run (claim_name : string) (item : string * record)
  (rq : list request) (ds : list string) (fs : list (string * list row))
  (p : string) (rows : list row) (lg : list log_record) (pl : pool_state) :
  Dict.get "wikidata_id" (snd item) <> None ->
  Dict.get claim_name (snd item) <> None ->
  write_record claim_name item (World rq ds (fs ++ [(p, rows)]) lg pl)
  = (Ok tt,
     World rq ds
           (fs ++ [(p, rows ++ (if passes claim_name item
                                then [row_of claim_name item] else []))])%list
           lg pl).
Proof.
  destruct item as [ror values]. cbn [snd]. intros Hw Hv.
  unfold write_record, passes, row_of, record_cell, getitem. cbn [fst snd].
  destruct (Dict.get "wikidata_id" values) as [wv|]; [|contradiction].
  destruct (Dict.get claim_name values) as [v|]; [|contradiction].
  unfold_M. destruct (truthy v).
  - now rewrite append_row_last.
  - now rewrite app_nil_r.
Qed.

Lemma write_records (claim_name : string) (data : list (string * record))
  (rq : list request) (ds : list string) (fs : list (string * list row))
  (p : string) (rows : list row) (lg : list log_record) (pl : pool_state) :
  (forall item, In item data ->
     Dict.get "wikidata_id" (snd item) <> None
     /\ Dict.get claim_name (snd item) <> None) ->
  for_each data (write_record claim_name)
           (World rq ds (fs ++ [(p, rows)]) lg pl)
  = (Ok tt,
     World rq ds
           (fs ++ [(p, rows ++ map (row_of claim_name)
                                   (filter (passes claim_name) data))])%list
           lg pl).
Proof.
  revert rows. induction data as [|item data IH]; intros rows Hcomplete.
  - cbn. now rewrite app_nil_r.
  - destruct (Hcomplete item (or_introl eq_refl)) as [Hw Hv].
    assert (Hrest : forall it, In it data ->
              Dict.get "wikidata_id" (snd it) <> None
              /\ Dict.get claim_name (snd it) <> None)
      by (intros it Hin; apply Hcomplete; now right).
    cbn [for_each filter]. unfold bind at 1.
    rewrite (write_record_run _ _ _ _ _ _ _ _ _ Hw Hv), (IH _ Hrest).
    destruct (passes claim_name item); cbn [map];
      now rewrite <- app_assoc.
Qed.

Lemma write_claim_run (data : page_data) (out_dir : string)
  (claim : string * string) (w : world) :
  (forall item, In item data ->
     Dict.get "wikidata_id" (snd item) <> None
     /\ Dict.get (snd claim) (snd item) <> None) ->
  write_claim data out_dir claim w
  = (Ok tt,
     World (requests w) (dirs w)
           (files w ++ [csv_file data out_dir claim])
           (log w ++ [generated_info out_dir claim]) (pool w)).
Proof.
  intros Hcomplete. destruct claim as [claim_id claim_name].
  destruct w as [rq ds fl lg pl].
  unfold write_claim, csv_file, generated_info, header. cbn [snd] in *.
  unfold bind at 1. unfold open_w at 1.
  unfold bind at 1. unfold writerow at 1.
  cbn [requests dirs files log pool]. rewrite append_row_last.
  unfold bind at 1. unfold Dict.items.
  rewrite write_records by exact Hcomplete.
  reflexivity.
Qed.

Lemma write_claims_run (data : page_data) (out_dir : string)
  (claims : list (string * string)) (w : world) :
  (forall item, In item data ->
     Dict.get "wikidata_id" (snd item) <> None
     /\ forall claim, In claim claims ->
          Dict.get (snd claim) (snd item) <> None) ->
  for_each claims (write_claim data out_dir) w
  = (Ok tt,
     World (requests w) (dirs w)
           (files w ++ map (csv_file data out_dir) claims)
           (log w ++ map (generated_info out_dir) claims) (pool w)).
Proof.
  revert w. induction claims as [|claim claims IH]; intros w Hcomplete.
  - destruct w. cbn. now rewrite !app_nil_r.
  - cbn [for_each map]. unfold bind at 1. rewrite write_claim_run.
    + rewrite IH.
      * cbn [requests dirs files log pool]. now rewrite <- !app_assoc.
      * intros item Hin. destruct (Hcomplete item Hin) as [Hw Hc].
        split; [exact Hw|]. intros c Hc'. apply Hc. now right.
    + intros item Hin. destruct (Hcomplete item Hin) as [Hw Hc].
      split; [exact Hw|]. apply Hc. now left.
Qed.

(** On complete data the emitter never raises: it creates the directory and
    writes the files of the claims, in order. *)
Lemma generate_csv_files_run (data : page_data) (out_dir : string)
  (claims : claim_spec) (w : world) :
  complete claims data ->
  generate_csv_files data out_dir claims w
  = (Ok tt,
     World (requests w) (dirs w ++ [out_dir])
           (files w ++ map (csv_file data out_dir) (Dict.items claims))
           (log w ++ map (generated_info out_dir) (Dict.items claims))
           (pool w)).
Proof.
  intros Hcomplete. unfold generate_csv_files, Dict.items.
  unfold bind at 1. unfold makedirs at 1. rewrite write_claims_run.
  - reflexivity.
  - intros [ror values] Hin. destruct (Hcomplete ror values Hin) as [Hw Hc].
    split; [exact Hw|]. intros claim Hclaim. apply Hc.
    unfold Dict.values. now apply in_map.
Qed.

Lemma completeb_complete (claims : claim_spec) (data : page_data) :
  completeb claims data = true -> complete claims data.
Proof.
  unfold completeb, complete. intros H ror values Hin.
  rewrite forallb_forall in H. specialize (H _ Hin). cbn [snd has_keys] in H.
  destruct (Dict.get "wikidata_id" values); [|discriminate].
  split; [discriminate|].
  induction (Dict.values claims) as [|n names IH]; [intros ? []|].
  cbn [has_keys] in H. destruct (Dict.get n values) eqn:Hn; [|discriminate].
  intros name [<-|Hname]; [congruence | now apply IH].
Qed.

Lemma truthy_iff (v : opt_str) :
  truthy v = true <-> exists s, v = Some s /\ s <> EmptyString.
Proof.
  destruct v as [[|c s]|]; simpl; split.
  - discriminate.
  - intros [s' [H Hne]]. injection H as <-. contradiction.
  - intros _. exists (String c s). split; [reflexivity | discriminate].
  - reflexivity.
  - discriminate.
  - intros [s' [H _]]. discriminate.
Qed.

Lemma passes_iff (claim_name : string) (item : string * record) :
  passes claim_name item = true <->
  exists s, Dict.get claim_name (snd item) = Some (Some s) /\ s <> EmptyString.
Proof.
  unfold passes, record_cell. rewrite truthy_iff.
  destruct (Dict.get claim_name (snd item)) as [v|].
  - split; intros [s [H Hne]]; exists s; (split; [|exact Hne]).
    + now rewrite H.
    + now injection H.
  - split; intros [s [H _]]; discriminate.
Qed.

(** C6.  On an aggregate whose records are complete, the emitter succeeds
    and appends one file per claim, in the order of the claim spec.  The
    file of a claim is named after it in the output directory, its first row
    is ["ROR ID"], ["Wikidata ID"] and the claim name, and its further rows
    are the rows of the records that pass the filter, in the iteration order
    of the aggregate. *)
Theorem generate_csv_files_rows :
  forall (data : page_data) (out_dir : string) (claims : claim_spec)
         (w : world),
    complete claims data ->
    exists w',
      generate_csv_files data out_dir claims w = (Ok tt, w')
      /\ files w'
         = (files w
            ++ map (fun claim =>
                      (path_join out_dir (snd claim ++ "_mapping.csv")%string,
                       [Some "ROR ID"; Some "Wikidata ID"; Some (snd claim)]
                         :: map (row_of (snd claim))
                                (filter (passes (snd claim))
                                        (Dict.items data))))
                   (Dict.items claims))%list.
Proof.
  intros data out_dir claims w Hcomplete.
  rewrite (generate_csv_files_run out_dir w Hcomplete).
  eexists. split; reflexivity.
Qed.

Lemma generate_csv_files_rows_witness :
  complete Sample.claims Sample.data
  /\ exists w',
       generate_csv_files Sample.data "out" Sample.claims initial_world
       = (Ok tt, w')
       /\ files w'
          = [("out/country_mapping.csv",
              [[Some "ROR ID"; Some "Wikidata ID"; Some "country"]]);
             ("out/website_mapping.csv",
              [[Some "ROR ID"; Some "Wikidata ID"; Some "website"];
               [Some "01abc"; Some "Q2"; Some "https://example.org"]])].
Proof.
  assert (H : complete Sample.claims Sample.data)
    by (apply completeb_complete; reflexivity).
  split; [exact H|].
  exact (generate_csv_files_rows "out" initial_world H).
Defined.

(** C4.  On an aggregate with distinct keys and complete records, the file
    of each claim has a row for a ROR identifier exactly when the record of
    that identifier holds a non-empty string for the claim; that row is the
    identifier, the record's ["wikidata_id"] and the claim value.  A record
    whose claim value is [None] has no row. *)
Theorem csv_row_iff_value :
  forall (data : page_data) (out_dir : string) (claims : claim_spec)
         (w : world),
    Dict.wf data -> complete claims data ->
    exists w' written,
      generate_csv_files data out_dir claims w = (Ok tt, w')
      /\ files w' = (files w ++ written)%list
      /\ length written = length claims
      /\ forall claim, In claim (Dict.items claims) ->
           exists rows,
             In (claim_path out_dir claim, header (snd claim) :: rows) written
             /\ forall ror values, Dict.get ror data = Some values ->
                  ((exists wid v, In [Some ror; wid; v] rows) <->
                   (exists s, Dict.get (snd claim) values = Some (Some s)
                              /\ s <> EmptyString))
                  /\ (forall wid v, In [Some ror; wid; v] rows ->
                        wid = record_cell values "wikidata_id"
                        /\ Dict.get (snd claim) values = Some v)
                  /\ (Dict.get (snd claim) values = Some None ->
                      ~ exists wid v, In [Some ror; wid; v] rows).
Proof.
  intros data out_dir claims w Hwf Hcomplete.
  rewrite (generate_csv_files_run out_dir w Hcomplete).
  eexists. exists (map (csv_file data out_dir) (Dict.items claims)).
  split; [reflexivity|]. split; [reflexivity|].
  split; [apply length_map|].
  intros claim Hclaim.
  exists (map (row_of (snd claim)) (filter (passes (snd claim)) (Dict.items data))).
  split; [exact (in_map (csv_file data out_dir) _ _ Hclaim)|].
  intros ror values Hget.
  assert (Hrow : forall wid v,
            In [Some ror; wid; v]
               (map (row_of (snd claim))
                    (filter (passes (snd claim)) (Dict.items data))) ->
            passes (snd claim) (ror, values) = true
            /\ [Some ror; wid; v] = row_of (snd claim) (ror, values)).
  { intros wid v Hin. apply in_map_iff in Hin.
    destruct Hin as [[ror' values'] [Heq Hin]].
    apply filter_In in Hin. destruct Hin as [Hin Hpass].
    unfold row_of in Heq. cbn [fst snd] in Heq.
    assert (ror' = ror) by congruence. subst ror'.
    apply (DictFacts.In_get_wf _ _ Hwf) in Hin.
    unfold Dict.items in Hin. rewrite Hget in Hin. injection Hin as <-.
    split; [exact Hpass | now symmetry]. }
  split; [|split].
  - split.
    + intros [wid [v Hin]]. destruct (Hrow _ _ Hin) as [Hpass _].
      now apply passes_iff in Hpass.
    + intros Hs. exists (record_cell values "wikidata_id"),
        (record_cell values (snd claim)).
      apply (in_map (row_of (snd claim)) _ (ror, values)).
      apply filter_In. split.
      * now apply DictFacts.get_Some_In.
      * now apply passes_iff.
  - intros wid v Hin. destruct (Hrow _ _ Hin) as [Hpass Heq].
    unfold row_of in Heq. cbn [fst snd] in Heq.
    injection Heq as -> ->. split; [reflexivity|].
    apply passes_iff in Hpass. destruct Hpass as [s [Hs _]].
    cbn [snd] in Hs. unfold record_cell. now rewrite Hs.
  - intros Hnone [wid [v Hin]]. destruct (Hrow _ _ Hin) as [Hpass _].
    apply passes_iff in Hpass. destruct Hpass as [s [Hs _]].
    cbn [snd] in Hs. congruence.
Qed.

Lemma csv_row_iff_value_witness :
  Dict.wf Sample.data /\ complete Sample.claims Sample.data
  /\ exists w' written,
       generate_csv_files Sample.data "out" Sample.claims initial_world
       = (Ok tt, w')
       /\ files w' = (files initial_world ++ written)%list
       /\ length written = 2.
Proof.
  assert (Hwf : Dict.wf Sample.data)
    by (apply DictFacts.wfb_wf; reflexivity).
  assert (Hc : complete Sample.claims Sample.data)
    by (apply completeb_complete; reflexivity).
  split; [exact Hwf|]. split; [exact Hc|].
  destruct (csv_row_iff_value "out" initial_world Hwf Hc)
    as [w' [written [Hrun [Hfiles [Hlen _]]]]].
  exists w', written. split; [exact Hrun|]. split; [exact Hfiles|].
  exact Hlen.
Defined.

(** ** Merging the pages *)

Lemma merge_snoc (pages : list page_data) (p : page_data) :
  merge (pages ++ [p]) = Dict.update (merge pages) p.
Proof. unfold merge. now rewrite fold_left_app. Qed.

Lemma fold_update_get (pages : list page_data) (d : page_data) (k : string) :
  Forall (@Dict.wf record) pages ->
  Dict.get k (fold_left (fun all_data res => Dict.update all_data res) pages d)
  = fold_left (fun acc p => match Dict.get k p with
                            | Some r => Some r
                            | None => acc
                            end) pages (Dict.get k d).
Proof.
  intros Hwf. revert d. induction Hwf as [|p pages Hp _ IH]; intros d; simpl;
    [reflexivity|].
  now rewrite IH, DictFacts.get_update.
Qed.

Lemma merge_get (pages : list page_data) (k : string) :
  Forall (@Dict.wf record) pages ->
  Dict.get k (merge pages) = right_biased_get k pages.
Proof. intros Hwf. unfold merge. now rewrite fold_update_get. Qed.

Lemma right_biased_absent (k : string) (pages : list page_data)
  (acc : option record) :
  Forall (fun q => Dict.get k q = None) pages ->
  fold_left (fun acc p => match Dict.get k p with
                          | Some r => Some r
                          | None => acc
                          end) pages acc = acc.
Proof.
  intros H. revert acc. induction H as [|q pages Hq _ IH]; intros acc; simpl;
    [reflexivity|].
  now rewrite Hq, IH.
Qed.

Lemma right_biased_present (k : string) (pages : list page_data)
  (acc : option record) :
  fold_left (fun acc p => match Dict.get k p with
                          | Some r => Some r
                          | None => acc
                          end) pages acc <> None
  <-> acc <> None \/ exists p, In p pages /\ Dict.get k p <> None.
Proof.
  revert acc. induction pages as [|q pages IH]; intros acc; simpl.
  - split; [now left | intros [H|[p [[] _]]]; exact H].
  - rewrite IH. split.
    + intros [H|[p [Hin Hp]]].
      * destruct (Dict.get k q) eqn:Hq; [|now left].
        right. exists q. split; [now left | congruence].
      * right. exists p. split; [now right | exact Hp].
    + intros [H|[p [[<-|Hin] Hp]]].
      * left. now destruct (Dict.get k q).
      * left. destruct (Dict.get k q); [discriminate | contradiction].
      * right. now exists p.
Qed.

Lemma merge_wf (pages : list page_data) : Dict.wf (merge pages).
Proof.
  unfold merge.
  assert (H : forall d, Dict.wf d ->
            Dict.wf (fold_left (fun all_data res => Dict.update all_data res)
                               pages d)).
  { induction pages as [|p pages IH]; intros d Hd; simpl; [exact Hd|].
    apply IH. now apply DictFacts.wf_update. }
  apply H. constructor.
Qed.

Lemma merge_In (pages : list page_data) (x : string * record) :
  In x (merge pages) -> exists p, In p pages /\ In x p.
Proof.
  unfold merge.
  assert (H : forall d,
            In x (fold_left (fun all_data res => Dict.update all_data res)
                            pages d) ->
            In x d \/ exists p, In p pages /\ In x p).
  { induction pages as [|p pages IH]; intros d Hin; simpl in *; [now left|].
    destruct (IH _ Hin) as [H|[q [Hq Hx]]].
    - destruct (DictFacts.In_update _ _ _ H) as [H'|H']; [now left|].
      right. exists p. split; [now left | exact H'].
    - right. exists q. split; [now right | exact Hx]. }
  intros Hin. destruct (H _ Hin) as [[]|H']. exact H'.
Qed.

Lemma merge_complete (claims : claim_spec) (pages : list page_data) :
  Forall (complete claims) pages -> complete claims (merge pages).
Proof.
  intros Hall ror values Hin.
  destruct (merge_In _ _ Hin) as [p [Hp Hx]].
  rewrite Forall_forall in Hall. exact (Hall p Hp ror values Hx).
Qed.

(** C3.  The aggregate of a sequence of pages (each with distinct keys) is
    their right-biased union taken from left to right: merging one more page
    is a dictionary update by it, a key has the record of the last page that
    holds it, so a later page overwrites an earlier one, and the keys of the
    aggregate are exactly the keys that occur in some page. *)
Theorem merge_right_biased :
  forall pages : list page_data,
    Forall (@Dict.wf record) pages ->
    (forall k, Dict.get k (merge pages) = right_biased_get k pages)
    /\ (forall ps p, merge (ps ++ [p]) = Dict.update (merge ps) p)
    /\ (forall earlier p later k r,
          pages = (earlier ++ p :: later)%list ->
          Dict.get k p = Some r ->
          Forall (fun q => Dict.get k q = None) later ->
          Dict.get k (merge pages) = Some r)
    /\ (forall k, In k (Dict.keys (merge pages)) <->
                  exists p, In p pages /\ In k (Dict.keys p))
    /\ Dict.wf (merge pages).
Proof.
  intros pages Hwf. split; [|split; [|split; [|split]]].
  - intros k. now apply merge_get.
  - apply merge_snoc.
  - intros earlier p later k r -> Hp Hlater.
    rewrite merge_get by exact Hwf. unfold right_biased_get.
    rewrite fold_left_app. cbn [fold_left]. rewrite Hp.
    now apply right_biased_absent.
  - intros k. rewrite <- DictFacts.get_keys, merge_get by exact Hwf.
    unfold right_biased_get. rewrite right_biased_present. split.
    + intros [H|[p [Hin Hp]]]; [contradiction|].
      exists p. split; [exact Hin | now apply DictFacts.get_keys].
    + intros [p [Hin Hp]]. right. exists p.
      split; [exact Hin | now apply DictFacts.get_keys].
  - apply merge_wf.
Qed.

Lemma merge_right_biased_witness :
  Forall (@Dict.wf record) [Sample.page1; Sample.page2]
  /\ Dict.get "01abc" (merge [Sample.page1; Sample.page2])
     = Some [("wikidata_id", Some "Q2"); ("country", Some "Q40")].
Proof.
  assert (H : Forall (@Dict.wf record) [Sample.page1; Sample.page2])
    by (apply Forall_cons; [apply DictFacts.wfb_wf; reflexivity|];
        apply Forall_cons; [apply DictFacts.wfb_wf; reflexivity|];
        apply Forall_nil).
  split; [exact H|].
  destruct (merge_right_biased H) as [_ [_ [Hlast _]]].
  apply (Hlast [Sample.page1] Sample.page2 [] "01abc").
  - reflexivity.
  - reflexivity.
  - constructor.
Defined.

(** ** Collisions inside a page and malformed bindings *)

(** C9.  In a page of well-formed bindings, the record the normaliser holds
    for a ROR identifier is the one built from the last binding of the page
    with that identifier: a later binding overwrites an earlier one. *)
Theorem last_binding_wins :
  forall (claims : claim_spec) (earlier : list binding) (b : binding)
         (later : list binding) (k : string),
    Forall (fun b' => well_formed b' = true) (earlier ++ b :: later) ->
    claim_value b "rorID" = Some k ->
    Forall (fun b' => claim_value b' "rorID" <> Some k) later ->
    exists d wid,
      process_wikidata_results (earlier ++ b :: later) claims = Ok d
      /\ wikidata_id_of b = Ok wid
      /\ Dict.get k d = Some (make_record wid b claims).
Proof.
  intros claims earlier b later k Hwf Hk Hlater.
  destruct (process_fold_total claims Dict.empty Hwf) as [d Hd].
  exists d. unfold process_wikidata_results.
  pose proof Hd as Hsplit. rewrite fold_result_app in Hsplit.
  destruct (fold_result (process_step claims) earlier Dict.empty)
    as [d1|] eqn:H1; [|discriminate].
  cbn [rbind fold_result] in Hsplit.
  destruct (process_step claims d1 b) as [d2|] eqn:H2; [|discriminate].
  cbn [rbind] in Hsplit.
  destruct (process_step_ok _ _ _ H2) as [ror [wid [Hr [Hw ->]]]].
  apply ror_id_of_value in Hk. assert (ror = k) by congruence. subst ror.
  exists wid. split; [exact Hd|]. split; [exact Hw|].
  rewrite (process_fold_other claims later _ Hsplit).
  - apply DictFacts.get_set_same.
  - intros b' Hin Hb'. rewrite Forall_forall in Hlater.
    apply (Hlater b' Hin). now apply ror_id_of_value.
Qed.

Lemma last_binding_wins_witness :
  exists d wid,
    process_wikidata_results ([Sample.b1] ++ Sample.b2 :: [Sample.b3])
                             Sample.claims = Ok d
    /\ wikidata_id_of Sample.b2 = Ok wid
    /\ Dict.get "01abc" d = Some (make_record wid Sample.b2 Sample.claims).
Proof.
  apply (@last_binding_wins Sample.claims [Sample.b1] Sample.b2 [Sample.b3]
           "01abc").
  - repeat constructor.
  - reflexivity.
  - constructor; [discriminate | constructor].
Defined.

(** C10.  A page with a binding that lacks a value for ["rorID"] or for
    ["item"] makes the normaliser raise a [KeyError] (for ["rorID"],
    ["item"] or ["value"]); the worker that fetched such a page logs the
    error and returns the empty mapping, whatever well-formed bindings the
    page holds besides. *)
Theorem malformed_binding_empties_page :
  forall (E : env) (endpoint_url query : string) (claims : claim_spec)
         (lim off : Z) (mail : option string) (results : list binding)
         (w : world),
    Exists (fun b => well_formed b = false) results ->
    http_get E (make_request endpoint_url query lim off mail) = Ok results ->
    exists key,
      In key ["rorID"; "item"; "value"]
      /\ process_wikidata_results results claims = Raise (KeyError key)
      /\ worker E endpoint_url query claims lim off mail w
         = (Ok Dict.empty,
            World (requests w ++ [make_request endpoint_url query lim off mail])
                  (dirs w) (files w)
                  (log w ++ [worker_error off (KeyError key)]) (pool w)).
Proof.
  intros E endpoint_url query claims lim off mail results w Hex Hget.
  destruct (process_fold_raises claims Dict.empty Hex) as [key [Hraise Hkey]].
  exists key. split; [exact Hkey|]. split; [exact Hraise|].
  rewrite worker_run. unfold worker_data, worker_log. rewrite Hget.
  unfold process_wikidata_results. now rewrite Hraise.
Qed.

Lemma malformed_binding_empties_page_witness :
  exists key,
    In key ["rorID"; "item"; "value"]
    /\ process_wikidata_results Sample.broken_page Sample.claims
       = Raise (KeyError key)
    /\ worker Sample.world_broken "https://query.wikidata.org/sparql"
              (generate_sparql_query Sample.claims) Sample.claims 10000 0 None
              initial_world
       = (Ok Dict.empty,
          World (requests initial_world
                 ++ [make_request "https://query.wikidata.org/sparql"
                                  (generate_sparql_query Sample.claims)
                                  10000 0 None])
                (dirs initial_world) (files initial_world)
                (log initial_world ++ [worker_error 0 (KeyError key)])
                (pool initial_world)).
Proof.
  apply (@malformed_binding_empties_page Sample.world_broken
           "https://query.wikidata.org/sparql"
           (generate_sparql_query Sample.claims) Sample.claims 10000%Z 0%Z
           None Sample.broken_page initial_world).
  - apply Exists_cons_tl. apply Exists_cons_hd. reflexivity.
  - reflexivity.
Defined.

(** What the sample evaluates to: the binding without ["rorID"] in the
    middle of the page loses the two well-formed bindings around it. *)
Example broken_page_raises :
  process_wikidata_results Sample.broken_page Sample.claims
  = Raise (KeyError "rorID")
  /\ worker_data Sample.world_broken "https://query.wikidata.org/sparql"
                 (generate_sparql_query Sample.claims) Sample.claims 10000 0
                 None
     = Dict.empty.
Proof. split; reflexivity. Qed.

(** ** The driver *)

Lemma range_len_pages (off lim : Z) :
  lim <> 0%Z -> range_len off (off + lim * 20) lim = 20.
Proof.
  intros Hne. unfold range_len.
  destruct (Z.ltb_spec 0 lim) as [Hpos|Hneg].
  - destruct (Z.ltb_spec off (off + lim * 20)) as [_|H]; [|lia].
    replace ((off + lim * 20 - off - 1) / lim)%Z with 19%Z; [reflexivity|].
    apply (Z.div_unique _ _ 19 (lim - 1)); lia.
  - destruct (Z.ltb_spec (off + lim * 20) off) as [_|H]; [|lia].
    replace ((off - (off + lim * 20) - 1) / - lim)%Z with 19%Z; [reflexivity|].
    apply (Z.div_unique _ _ 19 (- lim - 1)); lia.
Qed.

Lemma py_range_pages (off lim : Z) :
  lim <> 0%Z -> py_range off (off + lim * 20) lim = Ok (page_offsets off lim).
Proof.
  intros Hne. unfold py_range, page_offsets.
  destruct (Z.eqb_spec lim 0) as [H|_]; [contradiction|].
  now rewrite range_len_pages.
Qed.

Lemma py_range_zero (start stop : Z) :
  py_range start stop 0
  = Raise (ValueError "range() arg 3 must not be zero").
Proof. reflexivity. Qed.

Lemma bind_ok {A B : Type} (m : M A) (k : A -> M B) (w w' : world) (a : A) :
  m w = (Ok a, w') -> bind m k w = k a w'.
Proof. intros H. unfold bind. now rewrite H. Qed.

Lemma bind_raise {A B : Type} (m : M A) (k : A -> M B) (w w' : world)
  (e : exn) :
  m w = (Raise e, w') -> bind m k w = (Raise e, w').
Proof. intros H. unfold bind. now rewrite H. Qed.

Lemma parse_json_claims_ok (E : env) (file_path : string)
  (claims : claim_spec) (w : world) :
  load_json E file_path = Ok claims ->
  parse_json_claims E file_path w = (Ok claims, w).
Proof.
  intros H. unfold parse_json_claims, try_except, lift. now rewrite H.
Qed.

(** The loader re-raises what loading raised; it logs it first when it is a
    JSON decoding error or an I/O error. *)
Lemma parse_json_claims_raise (E : env) (file_path : string) (e : exn)
  (w : world) :
  load_json E file_path = Raise e ->
  parse_json_claims E file_path w
  = (Raise e,
     World (requests w) (dirs w) (files w) (log w ++ loader_log e) (pool w)).
Proof.
  intros H. unfold parse_json_claims, try_except, lift, loader_log.
  rewrite H. destruct w as [rq ds fl lg pl].
  destruct e; unfold_M; cbn [app]; try reflexivity; now rewrite app_nil_r.
Qed.

Lemma worker_data_complete (E : env) (endpoint_url query : string)
  (claims : claim_spec) (lim off : Z) (mail : option string) :
  complete claims (worker_data E endpoint_url query claims lim off mail).
Proof.
  unfold worker_data.
  destruct (http_get E _) as [results|e]; [|intros ? ? []].
  destruct (process_wikidata_results results claims) as [d|e] eqn:Hd;
    [|intros ? ? []].
  now apply (process_complete results).
Qed.

Lemma worker_data_wf (E : env) (endpoint_url query : string)
  (claims : claim_spec) (lim off : Z) (mail : option string) :
  Dict.wf (worker_data E endpoint_url query claims lim off mail).
Proof.
  unfold worker_data.
  destruct (http_get E _) as [results|e]; [|constructor].
  destruct (process_wikidata_results results claims) as [d|e] eqn:Hd;
    [|constructor].
  apply (process_fold_wf claims results (d0 := Dict.empty));
    [constructor | exact Hd].
Qed.

Lemma aggregate_complete (E : env) (a : args) (claims : claim_spec) :
  complete claims (aggregate E a claims).
Proof.
  apply merge_complete. unfold pages_of. apply Forall_forall.
  intros p Hp. apply in_map_iff in Hp. destruct Hp as [off [<- _]].
  apply worker_data_complete.
Qed.

(** A run whose claims file loads and whose limit is not zero. *)
Lemma main_body_ok (E : env) (a : args) (claims : claim_spec) (w : world) :
  load_json E (input_file a) = Ok claims ->
  limit a <> 0%Z ->
  main_body E a w
  = (Ok tt,
     World (requests w ++ page_requests a claims)
           (dirs w ++ [output_directory a])
           (files w ++ map (csv_file (aggregate E a claims) (output_directory a))
                           (Dict.items claims))
           (log w ++ workers_log E a claims
                  ++ map (generated_info (output_directory a))
                         (Dict.items claims)
                  ++ [LogRecord INFO ("CSV files have been generated in "
                                      ++ output_directory a) None])
           PoolRunning).
Proof.
  intros Hload Hlim. unfold main_body.
  erewrite bind_ok by (apply parse_json_claims_ok; exact Hload).
  unfold bind at 1. unfold set_pool at 1.
  unfold bind at 1. unfold lift at 1. rewrite (py_range_pages _ Hlim).
  unfold bind at 1. rewrite pool_map_workers.
  unfold bind at 1.
  rewrite (generate_csv_files_run (output_directory a) _
             (aggregate_complete E a claims)).
  unfold logger_info. cbn [requests dirs files log pool].
  unfold page_requests, workers_log. now rewrite <- !app_assoc.
Qed.

Lemma main_ok (E : env) (a : args) (claims : claim_spec) :
  load_json E (input_file a) = Ok claims ->
  limit a <> 0%Z ->
  run_script E a
  = (0%Z,
     World (page_requests a claims) [output_directory a]
           (map (csv_file (aggregate E a claims) (output_directory a))
                (Dict.items claims))
           (workers_log E a claims
              ++ map (generated_info (output_directory a)) (Dict.items claims)
              ++ [LogRecord INFO ("CSV files have been generated in "
                                  ++ output_directory a) None])
           PoolJoined).
Proof.
  intros Hload Hlim. unfold run_script, main, try_finally, try_except.
  rewrite (main_body_ok E a initial_world Hload Hlim). reflexivity.
Qed.

(** A run whose claims file does not load. *)
Lemma main_load_error (E : env) (a : args) (e : exn) :
  load_json E (input_file a) = Raise e ->
  run_script E a
  = (0%Z,
     World [] [] []
           (loader_log e ++ [LogRecord ERROR "An error occurred: " (Some e)])
           NoPool).
Proof.
  intros Hload. unfold run_script, main, try_finally, try_except, main_body.
  erewrite bind_raise by (apply parse_json_claims_raise; exact Hload).
  reflexivity.
Qed.

(** C2 (as amended).  When the claims file loads and the limit is not zero,
    a run issues exactly twenty requests whatever the endpoint answers: the
    k-th, for k from 0 to 19, asks for the base query followed by
    [ LIMIT limit OFFSET offset + k * limit]. *)
Theorem twenty_requests :
  forall (E : env) (a : args) (claims : claim_spec),
    load_json E (input_file a) = Ok claims ->
    limit a <> 0%Z ->
    length (requests (snd (run_script E a))) = 20
    /\ requests (snd (run_script E a))
       = map (fun k => make_request (endpoint a) (generate_sparql_query claims)
                                    (limit a)
                                    (offset a + Z.of_nat k * limit a)
                                    (email a))
             (seq 0 20)
    /\ map (fun r => Dict.get "query" (req_params r))
           (requests (snd (run_script E a)))
       = map (fun k => Some (generate_sparql_query claims
                             ++ " LIMIT " ++ Str.of_Z (limit a)
                             ++ " OFFSET "
                             ++ Str.of_Z (offset a + Z.of_nat k * limit a)))
             (seq 0 20).
Proof.
  intros E a claims Hload Hlim. rewrite (main_ok E a Hload Hlim).
  cbn [snd requests]. unfold page_requests, page_offsets.
  rewrite !map_map. split; [now rewrite length_map, length_seq|].
  split; reflexivity.
Qed.

Lemma twenty_requests_witness :
  length (requests (snd (run_script Sample.world_ok Sample.arguments))) = 20
  /\ map (fun r => Dict.get "query" (req_params r))
         (firstn 2 (requests (snd (run_script Sample.world_ok
                                              Sample.arguments))))
     = [Some (generate_sparql_query Sample.claims
              ++ " LIMIT 10000 OFFSET 0");
        Some (generate_sparql_query Sample.claims
              ++ " LIMIT 10000 OFFSET 10000")].
Proof.
  destruct (@twenty_requests Sample.world_ok Sample.arguments Sample.claims)
    as [Hlen [Hreq _]].
  - reflexivity.
  - discriminate.
  - split; [exact Hlen|]. rewrite Hreq. reflexivity.
Defined.

(** C2 fails as stated: with a limit of zero [range] raises, the top-level
    handler logs the error and no request is issued. *)
Lemma twenty_requests_counterexample :
  length (requests (snd (run_script Sample.world_ok Sample.zero_limit))) <> 20
  /\ run_script Sample.world_ok Sample.zero_limit
     = (0%Z,
        World [] [] []
              [LogRecord ERROR "An error occurred: "
                 (Some (ValueError "range() arg 3 must not be zero"))]
              PoolJoined).
Proof. split; [vm_compute; discriminate | reflexivity]. Qed.

(** C5.  When the claims file loads and the limit is not zero: a worker
    whose request or whose normalisation raises logs the error and returns
    the empty mapping, so no exception reaches the driver; merging the empty
    mapping adds no record; and, whichever workers failed, the run ends with
    exit status 0 having written one file per claim, in the order of the
    claim spec, and joined the pool. *)
Theorem worker_failure_absorbed :
  forall (E : env) (a : args) (claims : claim_spec),
    load_json E (input_file a) = Ok claims ->
    limit a <> 0%Z ->
    (forall off w e,
       let req := make_request (endpoint a) (generate_sparql_query claims)
                               (limit a) off (email a) in
       http_get E req = Raise e
       \/ (exists results, http_get E req = Ok results
                           /\ process_wikidata_results results claims = Raise e) ->
       exists lg,
         worker E (endpoint a) (generate_sparql_query claims) claims (limit a)
                off (email a) w
         = (Ok Dict.empty,
            World (requests w ++ [req]) (dirs w) (files w)
                  (log w ++ lg ++ [worker_error off e]) (pool w)))
    /\ (forall all_data : page_data, Dict.update all_data Dict.empty = all_data)
    /\ exists w',
         run_script E a = (0%Z, w')
         /\ map fst (files w')
            = map (claim_path (output_directory a)) (Dict.items claims)
         /\ Forall (fun f => exists claim rows,
                      In claim (Dict.items claims)
                      /\ snd f = header (snd claim) :: rows) (files w')
         /\ pool w' = PoolJoined.
Proof.
  intros E a claims Hload Hlim. split; [|split].
  - intros off w e req Hfail. rewrite worker_run.
    unfold worker_data, worker_log. fold req.
    destruct Hfail as [Hreq|[results [Hreq Hproc]]]; rewrite Hreq.
    + eexists. reflexivity.
    + rewrite Hproc. exists []. reflexivity.
  - reflexivity.
  - rewrite (main_ok E a Hload Hlim). eexists. split; [reflexivity|].
    cbn [files pool]. split; [|split; [|reflexivity]].
    + rewrite map_map. reflexivity.
    + apply Forall_forall. intros f Hf. apply in_map_iff in Hf.
      destruct Hf as [claim [<- Hclaim]]. exists claim. eexists.
      split; [exact Hclaim | reflexivity].
Qed.

Lemma worker_failure_absorbed_witness :
  exists w',
    run_script Sample.world_ok Sample.arguments = (0%Z, w')
    /\ map fst (files w')
       = ["ror_wikidata_claims/country_mapping.csv";
          "ror_wikidata_claims/website_mapping.csv"].
Proof.
  destruct (@worker_failure_absorbed Sample.world_ok Sample.arguments
              Sample.claims) as [_ [_ [w' [Hrun [Hfiles _]]]]].
  - reflexivity.
  - discriminate.
  - exists w'. split; [exact Hrun | exact Hfiles].
Defined.

(** The sample run, in which nineteen of the twenty workers fail: the two
    files hold the rows of the one page that arrived. *)
Example sample_run_files :
  files (snd (run_script Sample.world_ok Sample.arguments))
  = [("ror_wikidata_claims/country_mapping.csv",
      [[Some "ROR ID"; Some "Wikidata ID"; Some "country"]]);
     ("ror_wikidata_claims/website_mapping.csv",
      [[Some "ROR ID"; Some "Wikidata ID"; Some "website"];
       [Some "01abc"; Some "Q2"; Some "https://example.org"]])]
  /\ length (log (snd (run_script Sample.world_ok Sample.arguments)))
     = 19 * 2 + 2 + 1.
Proof. split; vm_compute; reflexivity. Qed.

(** C8 (as amended).  When loading the claims file raises, the loader
    re-raises the error, having logged it when it is a JSON decoding error
    or an I/O error; the run then ends with exit status 0 without any
    request, directory or file, the top-level handler having logged the
    error. *)
Theorem load_failure_stops_run :
  forall (E : env) (a : args) (e : exn),
    load_json E (input_file a) = Raise e ->
    (forall w,
       parse_json_claims E (input_file a) w
       = (Raise e,
          World (requests w) (dirs w) (files w) (log w ++ loader_log e)
                (pool w)))
    /\ (isinstance e cJSONDecodeError = true \/ isinstance e cIOError = true ->
        exists text, loader_log e = [LogRecord ERROR text (Some e)])
    /\ exists w',
         run_script E a = (0%Z, w')
         /\ requests w' = [] /\ dirs w' = [] /\ files w' = []
         /\ log w' = (loader_log e
                      ++ [LogRecord ERROR "An error occurred: " (Some e)])%list.
Proof.
  intros E a e Hload. split; [|split].
  - intros w. now apply parse_json_claims_raise.
  - unfold loader_log. intros [H|H]; rewrite H.
    + eexists. reflexivity.
    + destruct (isinstance e cJSONDecodeError); eexists; reflexivity.
  - rewrite (main_load_error E a Hload). eexists.
    split; [reflexivity|]. repeat split.
Qed.

Lemma load_failure_stops_run_witness :
  run_script Sample.world_missing Sample.arguments
  = (0%Z,
     World [] [] []
           [LogRecord ERROR "Error reading file: "
              (Some (OSError "No such file or directory"));
            LogRecord ERROR "An error occurred: "
              (Some (OSError "No such file or directory"))]
           NoPool).
Proof.
  destruct (@load_failure_stops_run Sample.world_missing Sample.arguments
              (OSError "No such file or directory") eq_refl)
    as [_ [_ [w' [Hrun [Hreq [Hdirs [Hfiles Hlog]]]]]]].
  rewrite Hrun. destruct w' as [rq ds fl lg pl]. cbn in *.
  subst. f_equal. f_equal.
  vm_compute in Hrun. now injection Hrun.
Defined.

(** C8 fails as stated: an error of another class raised while loading (here
    the file cannot be decoded as text) goes through the loader without a log
    line. *)
Lemma loader_logs_all_counterexample :
  ~ loader_logs_all Sample.world_undecodable "claims.json".
Proof.
  intros H.
  destruct (H (UnicodeDecodeError "invalid start byte") initial_world eq_refl)
    as [w' [r [Hrun [Hlog _]]]].
  vm_compute in Hrun. injection Hrun as <-. cbn in Hlog. discriminate.
Qed.

(** The aggregate of a run always meets the conditions under which the
    emitter was specified. *)
Lemma aggregate_wf (E : env) (a : args) (claims : claim_spec) :
  Dict.wf (aggregate E a claims).
Proof. apply merge_wf. Qed.

Lemma pages_of_wf (E : env) (a : args) (claims : claim_spec) :
  Forall (@Dict.wf record) (pages_of E a claims).
Proof.
  apply Forall_forall. intros p Hp. unfold pages_of in Hp.
  apply in_map_iff in Hp. destruct Hp as [off [<- _]].
  apply worker_data_wf.
Qed.

(** ** Worked examples *)

(** The query for the claim spec [{"A": "a", "B": "b"}]. *)
Example query_two_claims :
  generate_sparql_query [("A", "a"); ("B", "b")]
  = "SELECT ?item ?rorID ?a ?b" ++ Str.nl
    ++ "WHERE {" ++ Str.nl
    ++ "  ?item wdt:P6782 ?rorID ." ++ Str.nl
    ++ "  OPTIONAL { ?item wdt:A ?a }" ++ Str.nl
    ++ "  OPTIONAL { ?item wdt:B ?b }" ++ Str.nl
    ++ "}".
Proof. reflexivity. Qed.

(** The sample page: the second binding of ["01abc"] replaces the first and
    keeps its place before ["02xyz"]. *)
Example sample_page_normalised :
  process_wikidata_results Sample.page Sample.claims
  = Ok [("01abc", [("wikidata_id", Some "Q2"); ("country", None);
                   ("website", Some "https://example.org")]);
        ("02xyz", [("wikidata_id", Some "Q3"); ("country", None);
                   ("website", None)])].
Proof. reflexivity. Qed.

(** Merging the two sample pages: ["01abc"] keeps its first position and
    takes the record of the second page. *)
Example sample_pages_merged :
  merge [Sample.page1; Sample.page2]
  = [("01abc", [("wikidata_id", Some "Q2"); ("country", Some "Q40")]);
     ("03klm", [("wikidata_id", Some "Q5"); ("country", None)]);
     ("02xyz", [("wikidata_id", Some "Q3"); ("country", None)])].
Proof. reflexivity. Qed.

(** Negative limits still give twenty pages, at descending offsets. *)
Example negative_limit_offsets :
  py_range 0 (0 + (-5) * 20) (-5)
  = Ok (map (fun k => (- 5 * Z.of_nat k)%Z) (seq 0 20)).
Proof. reflexivity. Qed.

(** * Further properties of the code *)

(** ** Insertion order *)

Module OrderFacts.

Section Facts.
Variable V : Type.
Implicit Types (d e : Dict.t V) (k : string) (v : V).

Lemma keys_set_add d k v :
  Dict.keys (Dict.set k v d) = add_key (Dict.keys d) k.
Proof.
  unfold add_key. induction d as [|[k1 v1] d IH]; simpl; [reflexivity|].
  destruct (String.eqb k k1) eqn:Hk; simpl; [reflexivity|].
  rewrite IH. now destruct (Dict.mem k (Dict.keys d)).
Qed.

Lemma keys_fold_set (l : list (string * V)) d :
  Dict.keys (fold_left (fun acc kv => Dict.set (fst kv) (snd kv) acc) l d)
  = fold_left add_key (map fst l) (Dict.keys d).
Proof.
  revert d. induction l as [|[k v] l IH]; intros d; simpl; [reflexivity|].
  now rewrite IH, keys_set_add.
Qed.

Lemma keys_update d e :
  Dict.keys (Dict.update d e) = fold_left add_key (Dict.keys e) (Dict.keys d).
Proof. apply keys_fold_set. Qed.

Lemma set_set_same d k v v' :
  Dict.set k v (Dict.set k v' d) = Dict.set k v d.
Proof.
  induction d as [|[k1 v1] d IH]; simpl.
  - now rewrite String.eqb_refl.
  - destruct (String.eqb k k1) eqn:Hk; simpl; rewrite Hk;
      [reflexivity | now rewrite IH].
Qed.

(** Two assignments to different keys commute once the first key is in the
    dictionary. *)
Lemma set_comm_present d k k' v v' :
  k <> k' -> In k (Dict.keys d) ->
  Dict.set k v (Dict.set k' v' d) = Dict.set k' v' (Dict.set k v d).
Proof.
  intros Hne. induction d as [|[k1 v1] d IH]; simpl; [intros []|].
  intros Hin.
  destruct (String.eqb_spec k' k1) as [->|Hk'];
    destruct (String.eqb_spec k k1) as [->|Hk]; simpl.
  - contradiction.
  - rewrite String.eqb_refl. apply String.eqb_neq in Hk. now rewrite Hk.
  - rewrite String.eqb_refl. apply String.eqb_neq in Hk'. now rewrite Hk'.
  - apply String.eqb_neq in Hk, Hk'. rewrite Hk, Hk'.
    f_equal. apply IH. destruct Hin as [H|H]; [|exact H].
    apply String.eqb_neq in Hk. now symmetry in H.
Qed.

Lemma set_fold_comm (l : list (string * V)) d k v :
  ~ In k (map fst l) -> In k (Dict.keys d) ->
  Dict.set k v (fold_left (fun acc kv => Dict.set (fst kv) (snd kv) acc) l d)
  = fold_left (fun acc kv => Dict.set (fst kv) (snd kv) acc) l
              (Dict.set k v d).
Proof.
  revert d. induction l as [|[k1 v1] l IH]; intros d Hnot Hin; simpl;
    [reflexivity|].
  simpl in Hnot. rewrite IH.
  - f_equal. apply set_comm_present; [|exact Hin].
    intros <-. apply Hnot. now left.
  - intros H. apply Hnot. now right.
  - apply DictFacts.keys_set. now right.
Qed.

Lemma update_set d e k v :
  Dict.wf e ->
  Dict.update d (Dict.set k v e) = Dict.set k v (Dict.update d e).
Proof.
  unfold Dict.update, Dict.wf. revert d.
  induction e as [|[k1 v1] e IH]; intros d Hwf; [reflexivity|].
  inversion Hwf as [|? ? Hnot Hwf']; subst. simpl.
  destruct (String.eqb_spec k k1) as [->|Hne]; simpl.
  - rewrite set_fold_comm.
    + now rewrite set_set_same.
    + exact Hnot.
    + apply DictFacts.keys_set. now left.
  - now apply IH.
Qed.

(** Assigning a sequence of items to [d] is updating [d] by the dictionary
    the sequence builds. *)
Lemma update_fold_set (l : list (string * V)) d e :
  Dict.wf e ->
  Dict.update d (fold_left (fun acc kv => Dict.set (fst kv) (snd kv) acc) l e)
  = fold_left (fun acc kv => Dict.set (fst kv) (snd kv) acc) l
              (Dict.update d e).
Proof.
  revert e. induction l as [|[k v] l IH]; intros e Hwf; simpl; [reflexivity|].
  rewrite IH by now apply DictFacts.wf_set.
  now rewrite update_set.
Qed.

End Facts.

Lemma mem_fold_add (l : list string) (acc : list string) (k : string) :
  Dict.mem k acc = true -> Dict.mem k (fold_left add_key l acc) = true.
Proof.
  revert acc. induction l as [|x l IH]; intros acc H; simpl; [exact H|].
  apply IH. unfold add_key. destruct (Dict.mem x acc); [exact H|].
  apply DictFacts.mem_In. apply in_or_app. left. now apply DictFacts.mem_In.
Qed.

Lemma mem_add_key (acc : list string) (k : string) :
  Dict.mem k (add_key acc k) = true.
Proof.
  unfold add_key. destruct (Dict.mem k acc) eqn:Hm; [exact Hm|].
  apply DictFacts.mem_In. apply in_or_app. right. now left.
Qed.

Lemma mem_fold_add_in (e acc : list string) (k : string) :
  Dict.mem k e = true -> Dict.mem k (fold_left add_key e acc) = true.
Proof.
  revert acc. induction e as [|x e IH]; intros acc Hk; [discriminate|].
  simpl in Hk |- *. apply orb_true_iff in Hk as [Hx|Hx].
  - apply String.eqb_eq in Hx. subst x. apply mem_fold_add, mem_add_key.
  - now apply IH.
Qed.

Lemma fold_add_step (e acc : list string) (k : string) :
  fold_left add_key (add_key e k) acc = add_key (fold_left add_key e acc) k.
Proof.
  unfold add_key at 2. destruct (Dict.mem k e) eqn:Hk.
  - unfold add_key at 2. now rewrite (mem_fold_add_in e acc k Hk).
  - now rewrite fold_left_app.
Qed.

Lemma fold_add_fold_add (l e acc : list string) :
  fold_left add_key (fold_left add_key l e) acc
  = fold_left add_key l (fold_left add_key e acc).
Proof.
  revert e. induction l as [|k l IH]; intros e; simpl; [reflexivity|].
  now rewrite IH, fold_add_step.
Qed.

Lemma first_occurrences_NoDup (l : list string) : NoDup (first_occurrences l).
Proof.
  unfold first_occurrences.
  assert (H : forall acc, NoDup acc -> NoDup (fold_left add_key l acc)).
  { induction l as [|k l IH]; intros acc Hacc; simpl; [exact Hacc|].
    apply IH. unfold add_key. destruct (Dict.mem k acc) eqn:Hk; [exact Hacc|].
    apply NoDup_app; [exact Hacc | repeat constructor; intros [] |].
    intros x Hx [<-|[]]. apply DictFacts.mem_In in Hx. congruence. }
  apply H. constructor.
Qed.

Lemma first_occurrences_In (l : list string) (k : string) :
  In k (first_occurrences l) <-> In k l.
Proof.
  unfold first_occurrences.
  assert (H : forall acc, In k (fold_left add_key l acc) <-> In k acc \/ In k l).
  { induction l as [|x l IH]; intros acc; simpl; [tauto|].
    rewrite IH. unfold add_key. destruct (Dict.mem x acc) eqn:Hx.
    - apply DictFacts.mem_In in Hx. split; [tauto|].
      intros [H|[<-|H]]; tauto.
    - rewrite in_app_iff. simpl. tauto. }
  rewrite H. simpl. tauto.
Qed.

Lemma fold_add_length (l acc : list string) :
  length (fold_left add_key l acc) <= length acc + length l.
Proof.
  revert acc. induction l as [|k l IH]; intros acc; simpl; [lia|].
  specialize (IH (add_key acc k)). unfold add_key in *.
  destruct (Dict.mem k acc); [lia|]. rewrite length_app in IH. simpl in IH. lia.
Qed.

End OrderFacts.

(** ** The normaliser: order, schema and composition *)

Lemma process_step_record (claims : claim_spec) (d : page_data) (b : binding) :
  process_step claims d b
  = (let? kv := binding_record claims b in
     Ok (Dict.set (fst kv) (snd kv) d)).
Proof.
  unfold process_step, binding_record, rbind.
  destruct (ror_id_of b); [|reflexivity].
  now destruct (wikidata_id_of b).
Qed.

(** The loop of the normaliser assigns the records of the bindings in
    order. *)
Lemma process_fold_records (claims : claim_spec) (results : list binding)
  (d0 : page_data) :
  fold_result (process_step claims) results d0
  = (let? kvs := page_records claims results in
     Ok (fold_left (fun acc kv => Dict.set (fst kv) (snd kv) acc) kvs d0)).
Proof.
  revert d0. induction results as [|b rest IH]; intros d0; simpl;
    [reflexivity|].
  rewrite process_step_record.
  destruct (binding_record claims b) as [kv|e]; simpl; [|reflexivity].
  rewrite IH. now destruct (page_records claims rest).
Qed.

Lemma page_records_ror (claims : claim_spec) (results : list binding)
  (kvs : list (string * record)) :
  page_records claims results = Ok kvs ->
  map (fun b => claim_value b "rorID") results = map Some (map fst kvs).
Proof.
  revert kvs. induction results as [|b rest IH]; intros kvs; simpl.
  - intros H. now injection H as <-.
  - unfold binding_record, rbind at 1.
    destruct (ror_id_of b) as [ror|] eqn:Hr; [|discriminate].
    unfold rbind at 1.
    destruct (wikidata_id_of b) as [wid|]; [|discriminate].
    unfold rbind.
    destruct (page_records claims rest) as [kvs'|]; [|discriminate].
    intros H. injection H as <-. simpl.
    apply ror_id_of_value in Hr. now rewrite Hr, (IH kvs' eq_refl).
Qed.

Lemma page_records_length (claims : claim_spec) (results : list binding)
  (kvs : list (string * record)) :
  page_records claims results = Ok kvs -> length kvs = length results.
Proof.
  intros H. apply page_records_ror in H.
  apply (f_equal (@length _)) in H. now rewrite !length_map in H.
Qed.

(** X1.  On a page of well-formed bindings the normaliser returns a mapping
    whose keys are the distinct ["rorID"] values of the page in the order of
    their first occurrence; it has at most as many records as the page has
    bindings. *)
Theorem normalised_keys_order :
  forall (results : list binding) (claims : claim_spec),
    Forall (fun b => well_formed b = true) results ->
    exists d rors,
      process_wikidata_results results claims = Ok d
      /\ map (fun b => claim_value b "rorID") results = map Some rors
      /\ Dict.keys d = first_occurrences rors
      /\ length d <= length results.
Proof.
  intros results claims Hwf.
  destruct (process_fold_total claims Dict.empty Hwf) as [d Hd].
  pose proof Hd as Hrec. rewrite process_fold_records in Hrec.
  destruct (page_records claims results) as [kvs|] eqn:Hkvs; [|discriminate].
  cbn [rbind] in Hrec. injection Hrec as Hrec.
  exists d, (map fst kvs). split; [exact Hd|].
  split; [now apply (page_records_ror claims)|].
  assert (Hkeys : Dict.keys d = first_occurrences (map fst kvs)).
  { rewrite <- Hrec. apply OrderFacts.keys_fold_set. }
  split; [exact Hkeys|].
  rewrite <- (length_map fst d). fold (Dict.keys d). rewrite Hkeys.
  unfold first_occurrences.
  pose proof (OrderFacts.fold_add_length (map fst kvs) []) as Hlen.
  rewrite length_map, (page_records_length claims results Hkvs) in Hlen.
  exact Hlen.
Qed.

Lemma normalised_keys_order_witness :
  exists d rors,
    process_wikidata_results Sample.page Sample.claims = Ok d
    /\ map (fun b => claim_value b "rorID") Sample.page = map Some rors
    /\ Dict.keys d = first_occurrences rors
    /\ length d <= length Sample.page.
Proof.
  apply (@normalised_keys_order Sample.page Sample.claims).
  repeat constructor.
Defined.

Lemma process_concat_merge (claims : claim_spec)
  (pages : list (list binding)) (ds : list page_data) :
  Forall2 (fun p d => process_wikidata_results p claims = Ok d) pages ds ->
  process_wikidata_results (concat pages) claims = Ok (merge ds).
Proof.
  intros Hall. unfold process_wikidata_results, merge.
  generalize (@Dict.empty record) as d0.
  induction Hall as [|p d pages ds Hp _ IH]; intros d0; [reflexivity|].
  cbn [concat fold_left]. rewrite fold_result_app.
  unfold process_wikidata_results in Hp.
  rewrite process_fold_records in Hp |- *.
  destruct (page_records claims p) as [kvs|]; [|discriminate].
  cbn [rbind] in Hp |- *. injection Hp as <-.
  rewrite <- IH. f_equal.
  rewrite OrderFacts.update_fold_set by constructor. reflexivity.
Qed.

Lemma process_raise_anywhere (claims : claim_spec) (results : list binding)
  (d0 d1 : page_data) (e : exn) :
  fold_result (process_step claims) results d0 = Raise e ->
  fold_result (process_step claims) results d1 = Raise e.
Proof.
  rewrite !process_fold_records.
  now destruct (page_records claims results).
Qed.

(** X2.  Normalising pages one by one and merging them gives what
    normalising their concatenation gives: when every page normalises, the
    aggregate does not depend on where the page boundaries fall.  And the
    concatenation raises what the first page that fails raises. *)
Theorem normalise_concat :
  forall (claims : claim_spec) (pages : list (list binding))
         (ds : list page_data),
    Forall2 (fun p d => process_wikidata_results p claims = Ok d) pages ds ->
    process_wikidata_results (concat pages) claims = Ok (merge ds)
    /\ forall (p : list binding) (later : list (list binding)) (e : exn),
         process_wikidata_results p claims = Raise e ->
         process_wikidata_results (concat (pages ++ p :: later)) claims
         = Raise e.
Proof.
  intros claims pages ds Hall.
  pose proof (@process_concat_merge claims pages ds Hall) as Hmerge.
  split; [exact Hmerge|].
  intros p later e Hp. rewrite concat_app. cbn [concat].
  unfold process_wikidata_results in *.
  rewrite fold_result_app, Hmerge. cbn [rbind].
  rewrite fold_result_app.
  now rewrite (@process_raise_anywhere claims p Dict.empty (merge ds) e Hp).
Qed.

Lemma normalise_concat_witness :
  process_wikidata_results (concat [[Sample.b1]; [Sample.b2; Sample.b3]])
                           Sample.claims
  = Ok (merge [[("01abc", make_record "Q1" Sample.b1 Sample.claims)];
               [("01abc", make_record "Q2" Sample.b2 Sample.claims);
                ("02xyz", make_record "Q3" Sample.b3 Sample.claims)]]).
Proof.
  apply (@normalise_concat Sample.claims [[Sample.b1]; [Sample.b2; Sample.b3]]).
  constructor; [reflexivity|]. constructor; [reflexivity|]. constructor.
Defined.

Lemma claim_values_keys (res : binding) (names : list string) (acc : record) :
  Dict.keys (fold_left (fun a n => Dict.set n (claim_value res n) a) names acc)
  = fold_left add_key names (Dict.keys acc).
Proof.
  revert acc. induction names as [|n names IH]; intros acc; simpl;
    [reflexivity|].
  now rewrite IH, OrderFacts.keys_set_add.
Qed.

Lemma make_record_keys (wid : string) (res : binding) (claims : claim_spec) :
  Dict.keys (make_record wid res claims)
  = first_occurrences ("wikidata_id" :: Dict.values claims).
Proof.
  unfold make_record, claim_values.
  rewrite OrderFacts.keys_update, claim_values_keys.
  now rewrite OrderFacts.fold_add_fold_add.
Qed.

(** X3.  Every record of a normalised page has the same keys, fixed by the
    claim spec alone: ["wikidata_id"] first, then the distinct claim names in
    the order of the spec. *)
Theorem record_schema :
  forall (results : list binding) (claims : claim_spec) (d : page_data),
    process_wikidata_results results claims = Ok d ->
    forall k r, Dict.get k d = Some r ->
      Dict.keys r = first_occurrences ("wikidata_id" :: Dict.values claims)
      /\ Dict.wf r.
Proof.
  intros results claims d Hd k r Hget. apply DictFacts.get_Some_In in Hget.
  destruct (process_fold_In _ _ _ _ _ Hd Hget)
    as [[]|[b [wid [_ [_ [_ ->]]]]]].
  split; [apply make_record_keys|].
  unfold Dict.wf. rewrite make_record_keys.
  apply OrderFacts.first_occurrences_NoDup.
Qed.

Lemma record_schema_witness :
  Dict.keys (make_record "Q3" Sample.b3 Sample.claims)
  = first_occurrences ("wikidata_id" :: Dict.values Sample.claims)
  /\ Dict.wf (make_record "Q3" Sample.b3 Sample.claims).
Proof.
  apply (@record_schema [Sample.b3] Sample.claims
           [("02xyz", make_record "Q3" Sample.b3 Sample.claims)] eq_refl
           "02xyz").
  reflexivity.
Defined.

(** X4.  When a claim is itself named ["wikidata_id"], every record holds
    under that key the binding's value for the variable of that name (or
    [None]), not the tail of the item URI. *)
Theorem wikidata_id_clash :
  forall (results : list binding) (claims : claim_spec) (d : page_data),
    In "wikidata_id" (Dict.values claims) ->
    process_wikidata_results results claims = Ok d ->
    forall k r, Dict.get k d = Some r ->
      exists b, In b results /\ claim_value b "rorID" = Some k
                /\ Dict.get "wikidata_id" r
                   = Some (claim_value b "wikidata_id").
Proof.
  intros results claims d Hclash Hd k r Hget.
  apply DictFacts.get_Some_In in Hget.
  destruct (process_fold_In _ _ _ _ _ Hd Hget)
    as [[]|[b [wid [Hin [Hr [_ ->]]]]]].
  exists b. split; [exact Hin|]. split; [now apply ror_id_of_value|].
  now apply make_record_claim.
Qed.

Lemma wikidata_id_clash_witness :
  exists b, In b [Sample.b3] /\ claim_value b "rorID" = Some "02xyz"
            /\ Dict.get "wikidata_id" [("wikidata_id", @None string)]
               = Some (claim_value b "wikidata_id").
Proof.
  apply (@wikidata_id_clash [Sample.b3] Sample.clash
           [("02xyz", [("wikidata_id", None)])]).
  - now left.
  - reflexivity.
  - reflexivity.
Defined.

(** ** The merge: order *)

Lemma fold_update_keys (pages : list page_data) (d : page_data) :
  Dict.keys (fold_left (fun all_data res => Dict.update all_data res) pages d)
  = fold_left add_key (concat (map (@Dict.keys record) pages)) (Dict.keys d).
Proof.
  revert d. induction pages as [|p pages IH]; intros d; simpl; [reflexivity|].
  now rewrite IH, fold_left_app, OrderFacts.keys_update.
Qed.

(** X5.  The keys of the aggregate are the distinct keys of the pages in the
    order of their first occurrence across the pages: an identifier met again
    in a later page keeps the place it had. *)
Theorem merged_keys_order :
  forall pages : list page_data,
    Dict.keys (merge pages)
    = first_occurrences (concat (map (@Dict.keys record) pages))
    /\ length (merge pages) <= length (concat pages).
Proof.
  intros pages. unfold merge.
  assert (Hkeys : Dict.keys
                    (fold_left (fun all_data res => Dict.update all_data res)
                               pages Dict.empty)
                  = first_occurrences (concat (map (@Dict.keys record) pages)))
    by apply fold_update_keys.
  split; [exact Hkeys|].
  rewrite <- (length_map fst), <- (length_map fst (concat pages)).
  fold (Dict.keys (fold_left (fun all_data res => Dict.update all_data res)
                             pages Dict.empty)).
  rewrite Hkeys, concat_map. unfold first_occurrences.
  apply (OrderFacts.fold_add_length _ []).
Qed.

(** ** One request *)

(** X6.  [execute_sparql_query] issues exactly one request whatever the
    outcome and hands the outcome on unchanged: the bindings on success, the
    exception otherwise, logged first when it is a [RequestException].  The
    request carries the query with [ LIMIT limit OFFSET offset] appended, the
    format ["json"], the fixed user agent, and a ["From"] header exactly when
    an e-mail address that is not empty was given. *)
Theorem execute_sparql_query_outcome :
  forall (E : env) (endpoint_url query : string) (lim off : Z)
         (mail : option string) (w : world),
    let req := make_request endpoint_url query lim off mail in
    execute_sparql_query E endpoint_url query lim off mail w
    = (http_get E req,
       World (requests w ++ [req]) (dirs w) (files w)
             (log w ++ request_log (http_get E req)) (pool w))
    /\ req_url req = endpoint_url
    /\ Dict.get "query" (req_params req)
       = Some (query ++ " LIMIT " ++ Str.of_Z lim ++ " OFFSET " ++ Str.of_Z off)
    /\ Dict.get "format" (req_params req) = Some "json"
    /\ Dict.get "User-Agent" (req_headers req)
       = Some "ror_wikidata_claim_overlap"
    /\ Dict.get "From" (req_headers req)
       = match mail with
         | Some m => if Str.truthy m then Some m else None
         | None => None
         end.
Proof.
  intros E endpoint_url query lim off mail w req.
  split; [|split; [|split; [|split; [|split]]]]; try reflexivity.
  - unfold execute_sparql_query, request_log. fold req. unfold_M.
    destruct (http_get E req) as [results|e].
    + now rewrite app_nil_r.
    + destruct e; cbn [app]; try reflexivity; now rewrite app_nil_r.
  - unfold req, make_request, request_headers. cbn [req_headers].
    destruct mail as [m|]; [|reflexivity].
    destruct (Str.truthy m); reflexivity.
  - unfold req, make_request, request_headers. cbn [req_headers].
    destruct mail as [m|]; [|reflexivity].
    destruct (Str.truthy m); reflexivity.
Qed.

(** ** Workers *)

(** X7.  A worker never raises: whatever the endpoint answers it returns a
    mapping, with distinct keys and complete records, after exactly one
    request and without touching a directory, a file or the pool. *)
Theorem worker_always_returns :
  forall (E : env) (endpoint_url query : string) (claims : claim_spec)
         (lim off : Z) (mail : option string) (w : world),
    exists d lg,
      worker E endpoint_url query claims lim off mail w
      = (Ok d,
         World (requests w ++ [make_request endpoint_url query lim off mail])
               (dirs w) (files w) (log w ++ lg) (pool w))
      /\ Dict.wf d /\ complete claims d
      /\ Forall (fun r => log_level r = ERROR) lg.
Proof.
  intros E endpoint_url query claims lim off mail w.
  exists (worker_data E endpoint_url query claims lim off mail),
         (worker_log E endpoint_url query claims lim off mail).
  split; [apply worker_run|]. split; [apply worker_data_wf|].
  split; [apply worker_data_complete|].
  unfold worker_log, worker_error.
  destruct (http_get E _) as [results|e].
  - destruct (process_wikidata_results results claims); repeat constructor.
  - destruct (isinstance e cRequestException); repeat constructor.
Qed.

(** X8.  When the request succeeds and every binding of the page is
    well-formed, the worker returns the normalised page and logs nothing. *)
Theorem worker_success :
  forall (E : env) (endpoint_url query : string) (claims : claim_spec)
         (lim off : Z) (mail : option string) (results : list binding)
         (w : world),
    http_get E (make_request endpoint_url query lim off mail) = Ok results ->
    Forall (fun b => well_formed b = true) results ->
    exists d,
      process_wikidata_results results claims = Ok d
      /\ worker E endpoint_url query claims lim off mail w
         = (Ok d,
            World (requests w ++ [make_request endpoint_url query lim off mail])
                  (dirs w) (files w) (log w) (pool w)).
Proof.
  intros E endpoint_url query claims lim off mail results w Hget Hwf.
  destruct (process_fold_total claims Dict.empty Hwf) as [d Hd].
  exists d. split; [exact Hd|].
  rewrite worker_run. unfold worker_data, worker_log. rewrite Hget.
  unfold process_wikidata_results. rewrite Hd. now rewrite app_nil_r.
Qed.

Lemma worker_success_witness :
  exists d,
    process_wikidata_results Sample.page Sample.claims = Ok d
    /\ worker Sample.world_full "https://query.wikidata.org/sparql"
              (generate_sparql_query Sample.claims) Sample.claims 10000 0 None
              initial_world
       = (Ok d,
          World (requests initial_world
                 ++ [make_request "https://query.wikidata.org/sparql"
                                  (generate_sparql_query Sample.claims)
                                  10000 0 None])
                (dirs initial_world) (files initial_world)
                (log initial_world) (pool initial_world)).
Proof.
  apply (@worker_success Sample.world_full "https://query.wikidata.org/sparql"
           (generate_sparql_query Sample.claims) Sample.claims 10000%Z 0%Z
           None Sample.page initial_world).
  - reflexivity.
  - repeat constructor.
Defined.

(** ** The pages of a run are pairwise distinct *)

Lemma to_int_not_nil (n : Z) :
  Z.to_int n <> Decimal.Pos Decimal.Nil
  /\ Z.to_int n <> Decimal.Neg Decimal.Nil.
Proof.
  destruct n as [|p|p]; simpl; split; try discriminate; intros H;
    injection H as H; apply (DecimalPos.Unsigned.to_uint_nonnil p H).
Qed.

(** [str] is injective on integers. *)
Lemma of_Z_inj (n m : Z) : Str.of_Z n = Str.of_Z m -> n = m.
Proof.
  unfold Str.of_Z. intros H. apply DecimalZ.to_int_inj.
  apply (f_equal NilZero.int_of_string) in H.
  destruct (to_int_not_nil n), (to_int_not_nil m).
  rewrite !NilZero.isi in H by assumption. now injection H.
Qed.

Lemma append_cancel_l (a x y : string) : a ++ x = a ++ y -> x = y.
Proof.
  induction a as [|c a IH]; simpl; [trivial|].
  intros H. injection H as H. now apply IH.
Qed.

Lemma full_query_inj (query : string) (lim off off' : Z) :
  full_query query lim off = full_query query lim off' -> off = off'.
Proof.
  unfold full_query. intros H.
  do 4 apply append_cancel_l in H. now apply of_Z_inj.
Qed.

Lemma page_offsets_NoDup (off lim : Z) :
  lim <> 0%Z -> NoDup (page_offsets off lim).
Proof.
  intros Hlim. unfold page_offsets.
  assert (H : forall l, NoDup l ->
            NoDup (map (fun k => (off + Z.of_nat k * lim)%Z) l)).
  { induction l as [|k l IH]; intros Hl; simpl; [constructor|].
    inversion Hl as [|? ? Hk Hl']; subst. constructor; [|now apply IH].
    intros Hin. apply in_map_iff in Hin. destruct Hin as [k' [Heq Hk']].
    assert (k' = k) by nia. subst k'. contradiction. }
  apply H, seq_NoDup.
Qed.

(** X9.  With a limit other than zero the twenty requests of a run are
    pairwise distinct: no page is asked for twice. *)
Theorem page_requests_distinct :
  forall (E : env) (a : args) (claims : claim_spec),
    load_json E (input_file a) = Ok claims ->
    limit a <> 0%Z ->
    NoDup (requests (snd (run_script E a))).
Proof.
  intros E a claims Hload Hlim. rewrite (main_ok E a Hload Hlim).
  cbn [snd requests]. unfold page_requests.
  pose proof (page_offsets_NoDup (offset a) Hlim) as Hnd.
  induction Hnd as [|o l Ho _ IH]; simpl; [constructor|].
  constructor; [|exact IH].
  intros Hin. apply in_map_iff in Hin. destruct Hin as [o' [Heq Ho']].
  unfold make_request in Heq. injection Heq as Heq.
  apply full_query_inj in Heq. subst o'. contradiction.
Qed.

Lemma page_requests_distinct_witness :
  NoDup (requests (snd (run_script Sample.world_ok Sample.arguments))).
Proof.
  apply (@page_requests_distinct Sample.world_ok Sample.arguments
           Sample.claims).
  - reflexivity.
  - discriminate.
Defined.

(** ** The emitter: a missing key, and what the rows hold *)

Lemma for_each_app {A : Type} (l1 l2 : list A) (body : A -> M unit)
  (w : world) :
  for_each (l1 ++ l2) body w
  = (for_each l1 body ;; for_each l2 body) w.
Proof.
  revert w. induction l1 as [|x l1 IH]; intros w; simpl.
  - unfold bind, ret. reflexivity.
  - unfold bind in *. destruct (body x w) as [[u|e] w']; [|reflexivity].
    now rewrite IH.
Qed.

Lemma write_record_missing (claim_name ror : string) (values : record)
  (w : world) :
  Dict.get claim_name values = None ->
  write_record claim_name (ror, values) w = (Raise (KeyError claim_name), w).
Proof.
  intros H. unfold write_record, getitem. rewrite H. reflexivity.
Qed.

(** X10.  The emitter raises [KeyError] at the first record that lacks the
    key of the claim being written: the files of the claims before it are
    complete, the file of that claim holds its header and the rows of the
    records before the faulty one, and no later claim is written. *)
Theorem emitter_missing_key :
  forall (data : page_data) (out_dir : string) (claims : claim_spec)
         (w : world) (done : claim_spec) (claim : string * string)
         (rest : claim_spec) (before : page_data) (ror : string)
         (values : record) (after : page_data),
    Dict.items claims = (done ++ claim :: rest)%list ->
    Dict.items data = (before ++ (ror, values) :: after)%list ->
    complete done data ->
    (forall item, In item before ->
       Dict.get (snd claim) (snd item) <> None) ->
    Dict.get (snd claim) values = None ->
    generate_csv_files data out_dir claims w
    = (Raise (KeyError (snd claim)),
       World (requests w) (dirs w ++ [out_dir])
             (files w ++ map (csv_file data out_dir) done
                ++ [(claim_path out_dir claim,
                     header (snd claim)
                       :: map (row_of (snd claim))
                              (filter (passes (snd claim)) before))])
             (log w ++ map (generated_info out_dir) done) (pool w)).
Proof.
  intros data out_dir claims w done claim rest before ror values after
    Hclaims Hdata Hdone Hbefore Hmissing.
  unfold Dict.items in *. subst claims.
  unfold generate_csv_files, Dict.items.
  unfold bind at 1. unfold makedirs at 1.
  rewrite for_each_app. unfold bind at 1.
  rewrite write_claims_run.
  2:{ intros [r v] Hin. destruct (Hdone r v Hin) as [Hw Hc].
      split; [exact Hw|]. intros c Hc'. apply Hc.
      unfold Dict.values. now apply in_map. }
  cbn [for_each]. unfold bind at 1.
  destruct claim as [claim_id claim_name]. cbn [snd] in *.
  unfold write_claim at 1. unfold bind at 1. unfold open_w at 1.
  unfold bind at 1. unfold writerow at 1.
  cbn [requests dirs files log pool]. rewrite append_row_last.
  unfold bind at 1. unfold Dict.items. rewrite Hdata, for_each_app.
  unfold bind at 1. rewrite write_records.
  2:{ intros item Hin. split; [|now apply Hbefore].
      destruct item as [r v]. cbn [snd]. refine (proj1 (Hdone r v _)).
      rewrite Hdata. apply in_or_app. now left. }
  cbn [for_each]. unfold bind at 1.
  rewrite write_record_missing by exact Hmissing.
  unfold claim_path, header. cbn [snd app]. now rewrite <- app_assoc.
Qed.

Lemma emitter_missing_key_witness :
  generate_csv_files Sample.ragged "out" Sample.claims initial_world
  = (Raise (KeyError "website"),
     World [] ["out"]
           [("out/country_mapping.csv",
             [[Some "ROR ID"; Some "Wikidata ID"; Some "country"];
              [Some "01abc"; Some "Q2"; Some "Q30"];
              [Some "02xyz"; Some "Q3"; Some "Q40"];
              [Some "03klm"; Some "Q5"; Some "Q50"]]);
            ("out/website_mapping.csv",
             [[Some "ROR ID"; Some "Wikidata ID"; Some "website"];
              [Some "01abc"; Some "Q2"; Some "https://example.org"]])]
           [LogRecord INFO "Generated CSV file: out/country_mapping.csv" None]
           NoPool).
Proof.
  apply (@emitter_missing_key Sample.ragged "out" Sample.claims initial_world
           [("P17", "country")] ("P856", "website") []
           [("01abc", [("wikidata_id", Some "Q2"); ("country", Some "Q30");
                       ("website", Some "https://example.org")])]
           "02xyz" [("wikidata_id", Some "Q3"); ("country", Some "Q40")]
           [("03klm", [("wikidata_id", Some "Q5"); ("country", Some "Q50");
                       ("website", Some "https://example.com")])]).
  - reflexivity.
  - reflexivity.
  - apply completeb_complete. reflexivity.
  - intros item [<-|[]]. discriminate.
  - reflexivity.
Defined.



(** ** The driver: every way a run can end *)

Lemma main_zero_limit (E : env) (a : args) (claims : claim_spec) :
  load_json E (input_file a) = Ok claims ->
  limit a = 0%Z ->
  run_script E a
  = (0%Z,
     World [] [] []
           [LogRecord ERROR "An error occurred: "
              (Some (ValueError "range() arg 3 must not be zero"))]
           PoolJoined).
Proof.
  intros Hload Hlim. unfold run_script, main, try_finally, try_except, main_body.
  erewrite bind_ok by (apply parse_json_claims_ok; exact Hload).
  rewrite Hlim. reflexivity.
Qed.

(** X12.  With a limit of zero and a claims file that loads, [range] raises
    after the pool was created: the run issues no request, creates no
    directory and writes no file, the top-level handler logs the
    [ValueError], the pool is joined and the exit status is 0. *)
Theorem zero_limit_run :
  forall (E : env) (a : args) (claims : claim_spec),
    load_json E (input_file a) = Ok claims ->
    limit a = 0%Z ->
    run_script E a
    = (0%Z,
       World [] [] []
             [LogRecord ERROR "An error occurred: "
                (Some (ValueError "range() arg 3 must not be zero"))]
             PoolJoined).
Proof.
  intros E a claims Hload Hlim.
  unfold run_script, main, try_finally, try_except, main_body.
  erewrite bind_ok by (apply parse_json_claims_ok; exact Hload).
  unfold bind at 1. unfold set_pool at 1. unfold bind at 1. unfold lift at 1.
  rewrite Hlim, py_range_zero. reflexivity.
Qed.

Lemma zero_limit_run_witness :
  run_script Sample.world_full Sample.zero_limit
  = (0%Z,
     World [] [] []
           [LogRecord ERROR "An error occurred: "
              (Some (ValueError "range() arg 3 must not be zero"))]
           PoolJoined).
Proof.
  apply (@zero_limit_run Sample.world_full Sample.zero_limit Sample.claims);
    reflexivity.
Defined.

(** X13.  Whatever the claims file, the arguments and the endpoint, [main]
    catches every exception: the exit status is 0.  The pool is never left
    running: it is joined when the claims file loaded and was never created
    otherwise.  Files are written only in a run whose claims file loaded and
    whose limit is not zero. *)
Theorem run_always_exits_zero :
  forall (E : env) (a : args),
    fst (run_script E a) = 0%Z
    /\ pool (snd (run_script E a))
       = match load_json E (input_file a) with
         | Ok _ => PoolJoined
         | Raise _ => NoPool
         end
    /\ (files (snd (run_script E a)) <> [] ->
        limit a <> 0%Z /\ exists claims, load_json E (input_file a) = Ok claims).
Proof.
  intros E a. destruct (load_json E (input_file a)) as [claims|e] eqn:Hload.
  - destruct (Z.eq_dec (limit a) 0) as [Hlim|Hlim].
    + rewrite (main_zero_limit E a Hload Hlim). cbn.
      split; [reflexivity|]. split; [reflexivity|]. intros H. now contradiction H.
    + rewrite (main_ok E a Hload Hlim). cbn [fst snd pool files].
      split; [reflexivity|]. split; [reflexivity|]. intros _.
      split; [exact Hlim | now exists claims].
  - rewrite (main_load_error E a Hload). cbn.
    split; [reflexivity|]. split; [reflexivity|]. intros H. now contradiction H.
Qed.

(** X14.  The loader hands on the outcome of loading unchanged, the claim
    spec or the exception; it issues no request and touches no directory,
    file or pool, and when loading succeeds it logs nothing. *)
Theorem loader_transparent :
  forall (E : env) (file_path : string) (w : world),
    fst (parse_json_claims E file_path w) = load_json E file_path
    /\ requests (snd (parse_json_claims E file_path w)) = requests w
    /\ dirs (snd (parse_json_claims E file_path w)) = dirs w
    /\ files (snd (parse_json_claims E file_path w)) = files w
    /\ pool (snd (parse_json_claims E file_path w)) = pool w
    /\ (forall claims, load_json E file_path = Ok claims ->
          snd (parse_json_claims E file_path w) = w).
Proof.
  intros E file_path w.
  destruct (load_json E file_path) as [claims|e] eqn:Hload.
  - rewrite (parse_json_claims_ok E file_path w Hload). cbn.
    repeat split; reflexivity.
  - rewrite (parse_json_claims_raise E file_path w Hload). cbn.
    repeat split; try reflexivity. intros claims H. discriminate.
Qed.

(** X15.  With the empty claim spec and a limit other than zero a run still
    issues its twenty requests, all for the query that selects only [?item]
    and [?rorID], creates the output directory and writes no file. *)
Theorem empty_spec_run :
  forall (E : env) (a : args),
    load_json E (input_file a) = Ok Dict.empty ->
    limit a <> 0%Z ->
    fst (run_script E a) = 0%Z
    /\ files (snd (run_script E a)) = []
    /\ dirs (snd (run_script E a)) = [output_directory a]
    /\ map (fun r => Dict.get "query" (req_params r))
           (requests (snd (run_script E a)))
       = map (fun off =>
                Some ("SELECT ?item ?rorID" ++ Str.nl
                      ++ "WHERE {" ++ Str.nl
                      ++ "  ?item wdt:P6782 ?rorID ." ++ Str.nl ++ "}"
                      ++ " LIMIT " ++ Str.of_Z (limit a)
                      ++ " OFFSET " ++ Str.of_Z off))
             (page_offsets (offset a) (limit a)).
Proof.
  intros E a Hload Hlim. rewrite (main_ok E a Hload Hlim).
  cbn [fst snd files dirs requests Dict.items map].
  split; [reflexivity|]. split; [reflexivity|]. split; [reflexivity|].
  unfold page_requests. rewrite map_map. reflexivity.
Qed.

Lemma empty_spec_run_witness :
  fst (run_script Sample.world_no_claims Sample.arguments) = 0%Z
  /\ files (snd (run_script Sample.world_no_claims Sample.arguments)) = []
  /\ dirs (snd (run_script Sample.world_no_claims Sample.arguments))
     = ["ror_wikidata_claims"]
  /\ length (requests (snd (run_script Sample.world_no_claims
                                        Sample.arguments))) = 20.
Proof.
  destruct (@empty_spec_run Sample.world_no_claims Sample.arguments)
    as [Hexit [Hfiles [Hdirs Hreq]]].
  - reflexivity.
  - discriminate.
  - split; [exact Hexit|]. split; [exact Hfiles|]. split; [exact Hdirs|].
    apply (f_equal (@length _)) in Hreq. rewrite !length_map in Hreq.
    exact Hreq.
Defined.

(** ** The text of the query *)

Lemma count_join_map {A : Type} (ch : ascii) (f : A -> string) (l : list A)
  (m : nat) :
  Forall (fun x => Str.count ch (f x) = m) l ->
  Str.count ch (Str.join (map f l)) = m * length l.
Proof.
  intros H. induction H as [|x l Hx _ IH]; [cbn; lia|].
  cbn [map length]. rewrite join_cons, StrFacts.count_app, Hx, IH. lia.
Qed.

(** X16.  For a claim spec whose identifiers and names contain no question
    mark, brace or line feed, the query has balanced braces, one pair for
    the WHERE clause and one per claim; it has four variable occurrences
    and three more per claim; and it has three line feeds and one more per
    claim, so one line per OPTIONAL clause. *)
Theorem query_text_counts :
  forall claims : claim_spec,
    Forall (fun c => plain (fst c) /\ plain (snd c)) (Dict.items claims) ->
    Str.count "{" (generate_sparql_query claims) = 1 + length claims
    /\ Str.count "}" (generate_sparql_query claims) = 1 + length claims
    /\ Str.count "?" (generate_sparql_query claims) = 4 + 3 * length claims
    /\ Str.count (ascii_of_nat 10) (generate_sparql_query claims)
       = 3 + length claims.
Proof.
  intros claims Hplain. unfold generate_sparql_query, Dict.items in *.
  rewrite query_clauses_eq.
  assert (Hsel : forall ch k,
            Str.count ch " ?" = k ->
            Forall (fun c => Str.contains ch (snd c) = false) claims ->
            Str.count ch (Str.join (map select_var claims)) = k * length claims).
  { intros ch k Hk Hall. apply count_join_map.
    eapply Forall_impl; [|exact Hall]. cbv beta. intros c Hc.
    unfold select_var.
    now rewrite StrFacts.count_app, (StrFacts.count_none _ _ Hc), Hk, Nat.add_0_r. }
  assert (Hopt : forall ch k,
            Str.count ch (Str.nl ++ "  OPTIONAL { ?item wdt:")
            + Str.count ch " ?" + Str.count ch " }" = k ->
            Forall (fun c => Str.contains ch (fst c) = false
                             /\ Str.contains ch (snd c) = false) claims ->
            Str.count ch (Str.join (map optional_clause claims))
            = k * length claims).
  { intros ch k Hk Hall. apply count_join_map.
    eapply Forall_impl; [|exact Hall]. cbv beta. intros c [Hi Hn].
    unfold optional_clause.
    change (Str.nl ++ "  OPTIONAL { ?item wdt:" ++ fst c ++ " ?" ++ snd c ++ " }")
      with ((Str.nl ++ "  OPTIONAL { ?item wdt:")
              ++ fst c ++ " ?" ++ snd c ++ " }").
    rewrite !StrFacts.count_app, (StrFacts.count_none _ _ Hi),
      (StrFacts.count_none _ _ Hn).
    rewrite StrFacts.count_app in Hk. lia. }
  assert (Hs : forall ch,
            (ch = "?" \/ ch = "{" \/ ch = "}" \/ ch = ascii_of_nat 10)%char ->
            Forall (fun c => Str.contains ch (fst c) = false
                             /\ Str.contains ch (snd c) = false) claims).
  { intros ch Hch. eapply Forall_impl; [|exact Hplain]. cbv beta.
    unfold plain. intros c [[? [? [? ?]]] [? [? [? ?]]]].
    destruct Hch as [ -> | [ -> | [ -> | -> ] ] ]; now split. }
  assert (Hn : forall ch,
            (ch = "?" \/ ch = "{" \/ ch = "}" \/ ch = ascii_of_nat 10)%char ->
            Forall (fun c => Str.contains ch (snd c) = false) claims).
  { intros ch Hch. eapply Forall_impl; [|exact (Hs ch Hch)]. cbv beta.
    now intros c [_ H]. }
  repeat split; rewrite !StrFacts.count_app.
  - rewrite (Hsel "{"%char 0), (Hopt "{"%char 1); try reflexivity;
      [|apply Hs; tauto | apply Hn; tauto].
    change (Str.count "{" select_init) with 0.
    change (Str.count "{" Str.nl) with 0.
    change (Str.count "{" where_init) with 1.
    change (Str.count "{" "}") with 0. lia.
  - rewrite (Hsel "}"%char 0), (Hopt "}"%char 1); try reflexivity;
      [|apply Hs; tauto | apply Hn; tauto].
    change (Str.count "}" select_init) with 0.
    change (Str.count "}" Str.nl) with 0.
    change (Str.count "}" where_init) with 0.
    change (Str.count "}" "}") with 1. lia.
  - rewrite (Hsel "?"%char 1), (Hopt "?"%char 2); try reflexivity;
      [|apply Hs; tauto | apply Hn; tauto].
    change (Str.count "?" select_init) with 2.
    change (Str.count "?" Str.nl) with 0.
    change (Str.count "?" where_init) with 2.
    change (Str.count "?" "}") with 0. lia.
  - rewrite (Hsel (ascii_of_nat 10) 0), (Hopt (ascii_of_nat 10) 1);
      try reflexivity; [|apply Hs; tauto | apply Hn; tauto].
    change (Str.count (ascii_of_nat 10) select_init) with 0.
    change (Str.count (ascii_of_nat 10) Str.nl) with 1.
    change (Str.count (ascii_of_nat 10) where_init) with 1.
    change (Str.count (ascii_of_nat 10) "}") with 0. lia.
Qed.

Lemma query_text_counts_witness :
  Str.count "{" (generate_sparql_query Sample.claims) = 3
  /\ Str.count "}" (generate_sparql_query Sample.claims) = 3
  /\ Str.count "?" (generate_sparql_query Sample.claims) = 10
  /\ Str.count (ascii_of_nat 10) (generate_sparql_query Sample.claims) = 5.
Proof.
  apply (@query_text_counts Sample.claims).
  repeat constructor.
Defined.

(** ** The first malformed binding *)

(** X17.  The normaliser stops at the first binding that lacks a key and
    raises the [KeyError] of the key it misses first there: ["rorID"], then
    the ["value"] of that entry, then ["item"], then the ["value"] of that
    one.  The bindings after it are not looked at. *)
Theorem first_malformed_binding :
  forall (claims : claim_spec) (good : list binding) (b : binding)
         (rest : list binding) (key : string),
    Forall (fun b' => well_formed b' = true) good ->
    missing_key b = Some key ->
    process_wikidata_results (good ++ b :: rest) claims = Raise (KeyError key).
Proof.
  intros claims good b rest key Hgood Hkey.
  unfold process_wikidata_results. rewrite fold_result_app.
  destruct (process_fold_total claims Dict.empty Hgood) as [d ->].
  cbn [rbind fold_result].
  unfold missing_key in Hkey.
  unfold process_step, ror_id_of, wikidata_id_of, getitem, rbind.
  destruct (Dict.get "rorID" b) as [er|]; [|now injection Hkey as <-].
  destruct (Dict.get "value" er) as [ror|]; [|now injection Hkey as <-].
  destruct (Dict.get "item" b) as [ei|]; [|now injection Hkey as <-].
  destruct (Dict.get "value" ei) as [uri|]; [discriminate|].
  now injection Hkey as <-.
Qed.

Lemma first_malformed_binding_witness :
  process_wikidata_results ([Sample.b1] ++ Sample.b_no_ror :: [Sample.b3])
                           Sample.claims
  = Raise (KeyError "rorID").
Proof.
  apply first_malformed_binding.
  - repeat constructor.
  - reflexivity.
Defined.

(** ** The last segment of the item URI *)

Lemma contains_app_sep (pre x : string) :
  Str.contains "/" (pre ++ String "/" x) = true.
Proof.
  induction pre as [|c pre IH]; [reflexivity|].
  change (Str.contains "/" (String c pre ++ String "/" x))
    with (Ascii.eqb c "/" || Str.contains "/" (pre ++ String "/" x)).
  rewrite IH. apply orb_true_r.
Qed.

Lemma last_segment_unique (pre pre' x y : string) :
  Str.contains "/" x = false -> Str.contains "/" y = false ->
  pre ++ String "/" x = pre' ++ String "/" y -> x = y.
Proof.
  intros Hx Hy. revert pre'. induction pre as [|c pre IH]; intros pre' H.
  - destruct pre' as [|c' pre']; cbn [append] in H.
    + now injection H.
    + injection H as _ H. subst x.
      rewrite contains_app_sep in Hx. discriminate.
  - destruct pre' as [|c' pre']; cbn [append] in H.
    + injection H as _ H. subst y.
      rewrite contains_app_sep in Hy. discriminate.
    + injection H as _ H. now apply (IH pre').
Qed.

(** X18.  The secondary identifier is exactly the last path segment of the
    item value: for a value [pre/tail] whose [tail] has no ["/"] it is
    [tail], so a value that ends in ["/"] gives the empty identifier, and
    for a value without any ["/"] it is the whole value. *)
Theorem wikidata_id_last_segment :
  forall (b : binding) (uri : string),
    claim_value b "item" = Some uri ->
    (forall pre tail,
       uri = pre ++ "/" ++ tail -> Str.contains "/" tail = false ->
       wikidata_id_of b = Ok tail)
    /\ (Str.contains "/" uri = false -> wikidata_id_of b = Ok uri).
Proof.
  intros b uri Hitem.
  assert (Hw : wikidata_id_of b = getitem_last (Str.split "/" uri)).
  { unfold wikidata_id_of, claim_value, getitem, rbind in *.
    destruct (Dict.get "item" b) as [entry|]; [|discriminate].
    now rewrite Hitem. }
  rewrite Hw.
  destruct (StrFacts.getitem_last_total (StrFacts.split_nonempty "/" uri))
    as [wid Hwid].
  rewrite Hwid. destruct (StrFacts.split_last uri Hwid) as [Hno Hor].
  split.
  - intros pre tail -> Htail. f_equal.
    destruct Hor as [Heq|[pre' Heq]].
    + pose proof (contains_app_sep pre tail) as Hc.
      change (pre ++ String "/" tail) with (pre ++ "/" ++ tail) in Hc.
      rewrite Heq in Hc. congruence.
    + symmetry. now apply (last_segment_unique pre pre').
  - intros Hnone. f_equal. destruct Hor as [Heq|[pre' Heq]]; [now symmetry|].
    pose proof (contains_app_sep pre' wid) as Hc.
    change (pre' ++ String "/" wid) with (pre' ++ "/" ++ wid) in Hc.
    rewrite <- Heq in Hc. congruence.
Qed.

Lemma wikidata_id_last_segment_witness :
  wikidata_id_of Sample.b3 = Ok "Q3".
Proof.
  destruct (@wikidata_id_last_segment Sample.b3
              "http://www.wikidata.org/entity/Q3" eq_refl) as [Hlast _].
  apply (Hlast "http://www.wikidata.org/entity" "Q3"); reflexivity.
Defined.

(** ** A run whose pages all arrive *)

Lemma fetched_pages (E : env) (a : args) (claims : claim_spec)
  (offsets : list Z) :
  (forall off, In off offsets ->
     exists results,
       http_get E (make_request (endpoint a) (generate_sparql_query claims)
                                (limit a) off (email a)) = Ok results
       /\ Forall (fun b => well_formed b = true) results) ->
  Forall2 (fun p d => process_wikidata_results p claims = Ok d)
          (map (fetched E a claims) offsets)
          (map (fun off => worker_data E (endpoint a)
                                       (generate_sparql_query claims) claims
                                       (limit a) off (email a)) offsets)
  /\ concat (map (fun off => worker_log E (endpoint a)
                                        (generate_sparql_query claims) claims
                                        (limit a) off (email a)) offsets)
     = [].
Proof.
  induction offsets as [|off offsets IH]; intros Hall; [split; constructor|].
  destruct (Hall off (or_introl eq_refl)) as [results [Hget Hwf]].
  destruct (process_fold_total claims Dict.empty Hwf) as [d Hd].
  destruct IH as [IH1 IH2]; [intros o Ho; apply Hall; now right|].
  cbn [map concat]. unfold fetched at 1, worker_data at 1, worker_log at 1.
  rewrite Hget. unfold process_wikidata_results at 2 3. rewrite Hd.
  split; [constructor; [exact Hd | exact IH1] | exact IH2].
Qed.

(** X19.  When the claims file loads, the limit is not zero and every one
    of the twenty requests brings back well-formed bindings, the files of
    the run are the emitter's files for the normalisation of all the
    bindings taken together, in page order, and nothing is logged as an
    error. *)
Theorem run_of_well_formed_pages :
  forall (E : env) (a : args) (claims : claim_spec),
    load_json E (input_file a) = Ok claims ->
    limit a <> 0%Z ->
    (forall off, In off (page_offsets (offset a) (limit a)) ->
       exists results,
         http_get E (make_request (endpoint a) (generate_sparql_query claims)
                                  (limit a) off (email a)) = Ok results
         /\ Forall (fun b => well_formed b = true) results) ->
    exists d,
      process_wikidata_results
        (concat (map (fetched E a claims)
                     (page_offsets (offset a) (limit a)))) claims = Ok d
      /\ files (snd (run_script E a))
         = map (csv_file d (output_directory a)) (Dict.items claims)
      /\ Forall (fun r => log_level r = INFO) (log (snd (run_script E a))).
Proof.
  intros E a claims Hload Hlim Hall.
  destruct (fetched_pages E a claims _ Hall) as [Hpages Hlog].
  exists (aggregate E a claims). split; [|split].
  - unfold aggregate, pages_of. now apply process_concat_merge.
  - now rewrite (main_ok E a Hload Hlim).
  - rewrite (main_ok E a Hload Hlim). cbn [snd log].
    unfold workers_log. rewrite Hlog. cbn [app].
    apply Forall_app. split; [|repeat constructor].
    apply Forall_forall. intros r Hr. apply in_map_iff in Hr.
    now destruct Hr as [c [<- _]].
Qed.

Lemma run_of_well_formed_pages_witness :
  exists d,
    process_wikidata_results
      (concat (map (fetched Sample.world_full Sample.arguments Sample.claims)
                   (page_offsets 0 10000))) Sample.claims = Ok d
    /\ files (snd (run_script Sample.world_full Sample.arguments))
       = map (csv_file d "ror_wikidata_claims") (Dict.items Sample.claims)
    /\ Forall (fun r => log_level r = INFO)
              (log (snd (run_script Sample.world_full Sample.arguments))).
Proof.
  apply (@run_of_well_formed_pages Sample.world_full Sample.arguments
           Sample.claims).
  - reflexivity.
  - discriminate.
  - intros off _. exists Sample.page. split; [reflexivity|].
    repeat constructor.
Defined.

(** ** Instances on the sample run *)

Lemma run_always_exits_zero_witness :
  fst (run_script Sample.world_ok Sample.arguments) = 0%Z
  /\ pool (snd (run_script Sample.world_ok Sample.arguments)) = PoolJoined
  /\ limit Sample.arguments <> 0%Z
  /\ exists claims,
       load_json Sample.world_ok (input_file Sample.arguments) = Ok claims.
Proof.
  destruct (run_always_exits_zero Sample.world_ok Sample.arguments)
    as [Hexit [Hpool Hfiles]].
  split; [exact Hexit|]. split; [exact Hpool|].
  apply Hfiles. vm_compute. discriminate.
Defined.

Lemma loader_transparent_witness :
  fst (parse_json_claims Sample.world_ok "claims.json" initial_world)
  = Ok Sample.claims
  /\ snd (parse_json_claims Sample.world_ok "claims.json" initial_world)
     = initial_world.
Proof.
  destruct (loader_transparent Sample.world_ok "claims.json" initial_world)
    as [Hout [_ [_ [_ [_ Hsame]]]]].
  split; [exact Hout|]. apply (Hsame Sample.claims). reflexivity.
Defined.
